(** * BBB crossing probability model: a verification of [bbb_model.py]

    The module [bbb_model.py] maps eight physical parameters and eight
    weights to a heuristic probability: seven transfer functions produce
    factor scores, a weighted sum minus a fixed offset gives the logit [Z],
    and the logistic function squashes it.

    Conventions of the embedding.
    - A Python [float] is a real number of [R] and the arithmetic of [+],
      [-], [*] and [/] is exact. Rounding, underflow to zero, the
      infinities these four operations overflow to and NaN of IEEE-754
      binary64 are outside this model; statements are chosen so that they
      do not depend on them: an equation is that of the code's own
      expression, an order is never strict (rounding to nearest keeps
      [<=] but not [<]), an end point is excluded or a result promised
      only on a range of inputs where the double does the same.
    - An operation that can raise returns [None]: [/] on a zero divisor
      ([ZeroDivisionError]), [math.log10] on a non-positive argument
      ([ValueError]), [math.exp] and [**] when the value is beyond the
      range of a double ([OverflowError]), [**] with no float result.
      The program threads these through the option monad.
    - The dose score, built from comparisons, [+] and [/] alone, is
      also given on primitive binary64 floats (module [Binary64]), where
      rounding is part of the model and results are computed.
    - The returned [dict] is a finite map from strings to reals; objects
      live in a store where a claim is about state. *)

From stdpp Require Import base option strings gmap.
From Stdlib Require Import Reals Lra ZArith.
From Stdlib Require Floats.PrimFloat.

Open Scope R_scope.

(** ** Python primitives on floats *)

Module PyFloat.

(** [max(a, b)]: the first argument is kept unless the second is strictly
    greater. *)
Definition py_max (a b : R) : R := if Rlt_dec a b then b else a.

(** [min(a, b)]: the first argument is kept unless the second is strictly
    smaller. *)
Definition py_min (a b : R) : R := if Rlt_dec b a then b else a.

(** [abs(x)]. *)
Definition py_abs (x : R) : R := Rabs x.

(** [a / b]: [ZeroDivisionError] on a zero divisor. *)
Definition float_div (a b : R) : option R :=
  if Req_dec_T b 0 then None else Some (a / b).

(** The largest finite double, [(2 - 2^-52) * 2^1023]. *)
Definition float_max : R := IZR (2 ^ 1024 - 2 ^ 971).

(** The least magnitude that rounds to an infinity: the midpoint between
    [float_max] and [2^1024]. *)
Definition overflow_threshold : R := IZR (2 ^ 1024 - 2 ^ 970).

(** The result of a library operation that raises [OverflowError] when
    its value is too large for a double. *)
Definition checked (v : R) : option R :=
  if Rle_dec overflow_threshold (Rabs v) then None else Some v.

(** [math.exp(x)]: [OverflowError] when the value leaves the range. (A
    value too small for a double is rounded to [0.0] without an error: a
    rounding like the others, not modelled.) *)
Definition math_exp (x : R) : option R := checked (exp x).

(** [math.log10(x)]: [ValueError] unless [x] is positive. *)
Definition math_log10 (x : R) : option R :=
  if Rlt_dec 0 x then Some (ln x / ln 10) else None.

(** [x ** y] on floats ([y] an [int] literal is converted first).
    [x ** 0] is [1]; a positive base uses the real power; [0 ** y] is [0]
    for positive [y] and [ZeroDivisionError] for negative [y]; a negative
    base gives a float for an integral exponent only (the result is a
    [complex] otherwise); [OverflowError] when the value leaves the
    range. *)
Definition float_pow (x y : R) : option R :=
  if Req_dec_T y 0 then Some 1
  else if Rlt_dec 0 x then checked (Rpower x y)
  else if Req_dec_T x 0 then (if Rlt_dec 0 y then Some 0 else None)
  else if Req_dec_T (frac_part y) 0 then checked (powerRZ x (Int_part y))
  else None.

End PyFloat.

Import PyFloat.

(** ** The parameter record *)

Record BBBInputParams : Type := mkBBBInputParams {
  (* core inputs *)
  size_nm : R;
  apoe3_affinity : R;
  logP : R;
  zeta_mV : R;
  dose_relative : R;
  apoe3_expression : R;
  bbb_tightness : R;
  inflammation : R;
  (* weights for each factor in the logistic model *)
  w_size : R;
  w_aff : R;
  w_lip : R;
  w_charge : R;
  w_int : R;
  w_inf : R;
  w_dose : R;
  w_carrier : R
}.

(** ** Transfer functions *)

(** [math.exp(-0.5 * ((x - mu) / sigma) ** 2)] *)
Definition _gaussian (x mu sigma : R) : option R :=
  q ← float_div (x - mu) sigma;
  sq ← float_pow q 2;
  math_exp (-0.5 * sq).

Definition size_transfer_function (size_nm : R) : option R :=
  (* avoid log10 problems *)
  let size_nm := py_max size_nm 0.1 in
  x ← math_log10 size_nm;
  mu ← math_log10 50;
  let sigma := 0.25 in
  g ← _gaussian x mu sigma;
  Some (py_max 0 (py_min 1 g)).

Definition lipophilicity_transfer_function (logP : R) : option R :=
  (* center at 3, somewhat broad *)
  score ← _gaussian logP 3 1;
  Some (py_max 0 (py_min 1 score)).

Definition charge_transfer_function (zeta_mV : R) : option R :=
  let max_abs := 40 in
  q ← float_div (py_min (py_max (py_abs zeta_mV) 0) max_abs) max_abs;
  let val := 1 - q in
  Some (py_max 0 (py_min 1 val)).

Definition integrity_transfer_function (bbb_tightness : R) : R :=
  let tight := py_max 0 (py_min 1 bbb_tightness) in
  1 - tight.

Definition dose_transfer_function (dose_relative : R) : option R :=
  let dose := py_max 0 dose_relative in
  (* Michaelis-Menten-like: f = dose / (K + dose) *)
  let K := 2 in
  q ← float_div dose (K + dose);
  Some (py_max 0 (py_min 1 q)).

Definition inflammation_transfer_function (inflammation : R) : option R :=
  let inflam := py_max 0 (py_min 1 inflammation) in
  (* Slightly nonlinear to emphasize moderate-to-high inflammation *)
  float_pow inflam 0.7.

(** The expression [max(0.0, min(1.0, v))] that [compute_bbb_probability]
    applies in place to [apoe3_affinity] and to [apoe3_expression]. *)
Definition identity_clamp (v : R) : R := py_max 0 (py_min 1 v).

(** ** The aggregator *)

Definition logistic (z : R) : option R :=
  e ← math_exp (- z);
  float_div 1 (1 + e).

Definition compute_bbb_probability (params : BBBInputParams)
  : option (R * gmap string R) :=
  (* factor scores (0-1) *)
  size_score ← size_transfer_function (size_nm params);
  let affinity_score := py_max 0 (py_min 1 (apoe3_affinity params)) in
  lipophilicity_score ← lipophilicity_transfer_function (logP params);
  charge_score ← charge_transfer_function (zeta_mV params);
  let integrity_score := integrity_transfer_function (bbb_tightness params) in
  inflammation_score ← inflammation_transfer_function (inflammation params);
  dose_score ← dose_transfer_function (dose_relative params);
  let carrier_score := py_max 0 (py_min 1 (apoe3_expression params)) in
  (* weighted sum for logistic *)
  let Z :=
    w_size params * size_score
    + w_aff params * affinity_score
    + w_lip params * lipophilicity_score
    + w_charge params * charge_score
    + w_int params * integrity_score
    + w_inf params * inflammation_score
    + w_dose params * dose_score
    + w_carrier params * carrier_score
    - 2 (* global offset to keep probabilities modest by default *) in
  prob ← logistic Z;
  let components : gmap string R :=
    <["Z" := Z]>
    (<["carrier_score" := carrier_score]>
    (<["dose_score" := dose_score]>
    (<["inflammation_score" := inflammation_score]>
    (<["integrity_score" := integrity_score]>
    (<["charge_score" := charge_score]>
    (<["lipophilicity_score" := lipophilicity_score]>
    (<["affinity_score" := affinity_score]>
    (<["size_score" := size_score]> ∅)))))))) in
  Some (prob, components).

(** ** Closed forms used by the statements *)

(** Base-10 logarithm of a positive real. *)
Definition log10 (x : R) : R := ln x / ln 10.

(** The Gaussian bump in exact arithmetic. *)
Definition gauss (x mu sigma : R) : R :=
  exp (-0.5 * ((x - mu) / sigma) ^ 2).

(** The weighted sum of the eight factor scores minus the offset. *)
Definition weighted_sum (p : BBBInputParams)
    (size affinity lipophilicity charge integrity inflam dose carrier : R) : R :=
  w_size p * size + w_aff p * affinity + w_lip p * lipophilicity
  + w_charge p * charge + w_int p * integrity + w_inf p * inflam
  + w_dose p * dose + w_carrier p * carrier - 2.

(** The dictionary literal returned by [compute_bbb_probability], as a
    function of the nine values stored in it. *)
Definition score_map (size affinity lipophilicity charge integrity inflam
    dose carrier z : R) : gmap string R :=
  <["Z" := z]>
  (<["carrier_score" := carrier]>
  (<["dose_score" := dose]>
  (<["inflammation_score" := inflam]>
  (<["integrity_score" := integrity]>
  (<["charge_score" := charge]>
  (<["lipophilicity_score" := lipophilicity]>
  (<["affinity_score" := affinity]>
  (<["size_score" := size]> ∅)))))))).

(** The slider defaults of [app.py]: the reference inputs and weights. *)
Definition reference_params : BBBInputParams :=
  {| size_nm := 80; apoe3_affinity := 0.6; logP := 2.5; zeta_mV := -5;
     dose_relative := 3; apoe3_expression := 0.7; bbb_tightness := 0.9;
     inflammation := 0.2;
     w_size := 2; w_aff := 2.5; w_lip := 1; w_charge := 1; w_int := -2;
     w_inf := 0.5; w_dose := 1.5; w_carrier := 2 |}.


(** A record with every weight at zero. *)
Definition zero_weights (p : BBBInputParams) : BBBInputParams :=
  {| size_nm := size_nm p; apoe3_affinity := apoe3_affinity p;
     logP := logP p; zeta_mV := zeta_mV p;
     dose_relative := dose_relative p;
     apoe3_expression := apoe3_expression p;
     bbb_tightness := bbb_tightness p; inflammation := inflammation p;
     w_size := 0; w_aff := 0; w_lip := 0; w_charge := 0; w_int := 0;
     w_inf := 0; w_dose := 0; w_carrier := 0 |}.

(** ** The caller: [app.py]

    The script builds one record from its sliders, calls the aggregator,
    tabulates the eight factor scores and sweeps the size score over a
    range for the sensitivity plot. Rendering is left out. *)

(** The [min_value] and [max_value] of the sixteen sliders. *)
Definition slider_ranges (p : BBBInputParams) : Prop :=
  (1 <= size_nm p <= 500 /\
   0 <= apoe3_affinity p <= 1 /\
   -2 <= logP p <= 6 /\
   -40 <= zeta_mV p <= 40) /\
  (0 <= dose_relative p <= 10 /\
   0 <= apoe3_expression p <= 1 /\
   0 <= bbb_tightness p <= 1 /\
   0 <= inflammation p <= 1) /\
  (-4 <= w_size p <= 4 /\
   -4 <= w_aff p <= 4 /\
   -4 <= w_lip p <= 4 /\
   -4 <= w_charge p <= 4) /\
  (-4 <= w_int p <= 4 /\
   -4 <= w_inf p <= 4 /\
   -4 <= w_dose p <= 4 /\
   -4 <= w_carrier p <= 4).

(** The "Factor" column of the table. *)
Definition factor_labels : list string :=
  ["Size window"; "ApoE3 binding affinity"; "Lipophilicity";
   "Charge suitability"; "BBB tightness"; "Inflammation";
   "Dose (relative)"; "ApoE3 expression"].

(** The score column: eight subscripts [components[key]], each a
    [KeyError] on a missing key. *)
Definition factor_scores (components : gmap string R) : option (list R) :=
  s ← components !! "size_score";
  a ← components !! "affinity_score";
  l ← components !! "lipophilicity_score";
  c ← components !! "charge_score";
  i ← components !! "integrity_score";
  f ← components !! "inflammation_score";
  d ← components !! "dose_score";
  k ← components !! "carrier_score";
  Some [s; a; l; c; i; f; d; k].

(** The data frame of the two columns. *)
Definition factor_table (components : gmap string R)
  : option (list string * list R) :=
  scores ← factor_scores components;
  Some (factor_labels, scores).

(** [np.linspace(start, stop, num)]: [num] evenly spaced samples from
    [start] to [stop], both ends included. *)
Definition np_linspace (start stop : R) (num : nat) : list R :=
  (fun i : nat => start + INR i * ((stop - start) / INR (num - 1)))
    <$> seq 0 num.

(** [size_range = np.linspace(1, 500, 200)] *)
Definition size_range : list R := np_linspace 1 500 200.

(** [[size_transfer_function(s) for s in size_range]] *)
Definition size_scores : option (list R) :=
  mapM size_transfer_function size_range.

(** The computations of the script in order: the aggregator, the metric
    value [prob * 100], the table and the sweep. *)
Definition app_run (params : BBBInputParams)
  : option (R * (list string * list R) * list R) :=
  '(prob, components) ← compute_bbb_probability params;
  let metric := prob * 100 in
  df ← factor_table components;
  scores ← size_scores;
  Some (metric, df, scores).

(** ** The dose score on binary64

    [dose_transfer_function] uses comparisons, one addition and one
    division only, which primitive floats have: here rounding is part of
    the model and the function is evaluated, not reasoned about. *)

Module Binary64.

Import PrimFloat.

Definition py_max (a b : float) : float := if ltb a b then b else a.

Definition py_min (a b : float) : float := if ltb b a then b else a.

Definition float_div (a b : float) : option float :=
  if eqb b 0%float then None else Some (div a b).

Definition dose_transfer_function (dose_relative : float) : option float :=
  let dose := py_max 0%float dose_relative in
  (* Michaelis-Menten-like: f = dose / (K + dose) *)
  let K := 2%float in
  q ← float_div dose (add K dose);
  Some (py_max 0%float (py_min 1%float q)).

End Binary64.

(** ** Objects and calls

    A record of parameters is a mutable object and the returned dictionary
    a fresh one. A call reads the sixteen attributes of the object behind
    its argument, allocates the dictionary and returns the probability
    with a reference to it. *)



(** ** Relations between records used by the statements *)

(** The eight physical inputs agree. *)
Definition same_inputs (p q : BBBInputParams) : Prop :=
  (size_nm p = size_nm q /\ apoe3_affinity p = apoe3_affinity q /\
   logP p = logP q /\ zeta_mV p = zeta_mV q) /\
  (dose_relative p = dose_relative q /\
   apoe3_expression p = apoe3_expression q /\
   bbb_tightness p = bbb_tightness q /\ inflammation p = inflammation q).

(** The eight weights agree. *)
Definition same_weights (p q : BBBInputParams) : Prop :=
  (w_size p = w_size q /\ w_aff p = w_aff q /\
   w_lip p = w_lip q /\ w_charge p = w_charge q) /\
  (w_int p = w_int q /\ w_inf p = w_inf q /\
   w_dose p = w_dose q /\ w_carrier p = w_carrier q).

(** No weight of [p] exceeds the matching weight of [q]. *)
Definition weights_le (p q : BBBInputParams) : Prop :=
  (w_size p <= w_size q /\ w_aff p <= w_aff q /\
   w_lip p <= w_lip q /\ w_charge p <= w_charge q) /\
  (w_int p <= w_int q /\ w_inf p <= w_inf q /\
   w_dose p <= w_dose q /\ w_carrier p <= w_carrier q).

(** The record with every input moved to the nearest value of its intended
    range: the size raised to the floor, the charge cut to the window of
    40 mV, the dose raised to zero, the four unit-interval inputs clamped;
    [logP] and the weights are kept. *)
Definition saturate (p : BBBInputParams) : BBBInputParams :=
  {| size_nm := py_max (size_nm p) 0.1;
     apoe3_affinity := py_max 0 (py_min 1 (apoe3_affinity p));
     logP := logP p;
     zeta_mV := py_max (-40) (py_min 40 (zeta_mV p));
     dose_relative := py_max 0 (dose_relative p);
     apoe3_expression := py_max 0 (py_min 1 (apoe3_expression p));
     bbb_tightness := py_max 0 (py_min 1 (bbb_tightness p));
     inflammation := py_max 0 (py_min 1 (inflammation p));
     w_size := w_size p; w_aff := w_aff p; w_lip := w_lip p;
     w_charge := w_charge p; w_int := w_int p; w_inf := w_inf p;
     w_dose := w_dose p; w_carrier := w_carrier p |}.

(** The nine keys of the returned dictionary. *)
Definition score_keys : gset string :=
  {[ "size_score"; "affinity_score"; "lipophilicity_score";
     "charge_score"; "integrity_score"; "inflammation_score";
     "dose_score"; "carrier_score"; "Z" ]}.

(** The slider default inputs under other weights. *)
Definition reference_inputs_with (ws wa wl wc wi wf wd wk : R)
  : BBBInputParams :=
  {| size_nm := 80; apoe3_affinity := 0.6; logP := 2.5; zeta_mV := -5;
     dose_relative := 3; apoe3_expression := 0.7; bbb_tightness := 0.9;
     inflammation := 0.2;
     w_size := ws; w_aff := wa; w_lip := wl; w_charge := wc; w_int := wi;
     w_inf := wf; w_dose := wd; w_carrier := wk |}.

(** The slider defaults with another [logP]. *)
Definition reference_params_with_logP (lp : R) : BBBInputParams :=
  {| size_nm := 80; apoe3_affinity := 0.6; logP := lp; zeta_mV := -5;
     dose_relative := 3; apoe3_expression := 0.7; bbb_tightness := 0.9;
     inflammation := 0.2;
     w_size := 2; w_aff := 2.5; w_lip := 1; w_charge := 1; w_int := -2;
     w_inf := 0.5; w_dose := 1.5; w_carrier := 2 |}.


(** * Properties *)

(** Case analysis on every comparison that [max] and [min] perform,
    innermost first, then linear arithmetic on each branch. *)
Ltac no_cmp t :=
  lazymatch t with
  | context [Rlt_dec _ _] => fail
  | _ => idtac
  end.

Ltac py_cases :=
  unfold py_max, py_min;
  repeat match goal with
         | |- context [Rlt_dec ?a ?b] =>
             no_cmp a; no_cmp b; destruct (Rlt_dec a b)
         end;
  try lra.

(** An integer constant is below the overflow threshold. *)
Ltac below_threshold :=
  unfold overflow_threshold; apply IZR_lt; reflexivity.

(** ** Primitives *)

Lemma py_max_Rmax a b : py_max a b = Rmax a b.
Proof.
  unfold py_max, Rmax.
  destruct (Rlt_dec a b), (Rle_dec a b); lra.
Qed.

Lemma py_min_Rmin a b : py_min a b = Rmin a b.
Proof.
  unfold py_min, Rmin.
  destruct (Rlt_dec b a), (Rle_dec a b); lra.
Qed.

Lemma py_max_lb_l a b : a <= py_max a b.
Proof. py_cases. Qed.

Lemma py_max_lb_r a b : b <= py_max a b.
Proof. py_cases. Qed.

Lemma py_min_ub_l a b : py_min a b <= a.
Proof. py_cases. Qed.

Lemma py_min_ub_r a b : py_min a b <= b.
Proof. py_cases. Qed.

(** Clamping: [max(0.0, min(1.0, v))] always lands in the unit interval
    and leaves a value of the unit interval unchanged. *)
Lemma clamp_unit v : 0 <= py_max 0 (py_min 1 v) <= 1.
Proof. py_cases. Qed.

Lemma clamp_id v : 0 <= v <= 1 -> py_max 0 (py_min 1 v) = v.
Proof.
  intros Hv. py_cases.
Qed.

Lemma float_div_Some a b : b <> 0 -> float_div a b = Some (a / b).
Proof.
  intros Hb. unfold float_div.
  destruct (Req_dec_T b 0); [contradiction | reflexivity].
Qed.

Lemma float_div_zero a : float_div a 0 = None.
Proof.
  unfold float_div. destruct (Req_dec_T 0 0); [reflexivity | lra].
Qed.

Lemma math_log10_pos x : 0 < x -> math_log10 x = Some (log10 x).
Proof.
  intros Hx. unfold math_log10, log10.
  destruct (Rlt_dec 0 x); [reflexivity | contradiction].
Qed.

Lemma math_log10_nonpos x : x <= 0 -> math_log10 x = None.
Proof.
  intros Hx. unfold math_log10.
  destruct (Rlt_dec 0 x); [lra | reflexivity].
Qed.

(** ** The range of a double *)

Lemma overflow_threshold_large : 10000000 < overflow_threshold.
Proof. below_threshold. Qed.

Lemma float_max_below_threshold : float_max < overflow_threshold.
Proof. unfold float_max, overflow_threshold. apply IZR_lt. reflexivity. Qed.

Lemma checked_Some v : Rabs v < overflow_threshold -> checked v = Some v.
Proof.
  intros Hv. unfold checked.
  destruct (Rle_dec overflow_threshold (Rabs v)); [lra | reflexivity].
Qed.

Lemma checked_None v : overflow_threshold <= Rabs v -> checked v = None.
Proof.
  intros Hv. unfold checked.
  destruct (Rle_dec overflow_threshold (Rabs v)); [reflexivity | lra].
Qed.

Lemma checked_inv v w : checked v = Some w -> w = v /\ Rabs v < overflow_threshold.
Proof.
  unfold checked.
  destruct (Rle_dec overflow_threshold (Rabs v)); [discriminate |].
  intros H. injection H as <-. split; [reflexivity | lra].
Qed.

(** [math.exp] of a non-positive argument is at most 1 and never raises. *)
Lemma math_exp_nonpos x : x <= 0 -> math_exp x = Some (exp x).
Proof.
  intros Hx. unfold math_exp. apply checked_Some.
  pose proof (exp_pos x) as Hpos.
  assert (exp x <= 1) as Hle.
  { rewrite <- exp_0. destruct Hx as [Hlt | ->]; [| lra].
    left. apply exp_increasing. exact Hlt. }
  pose proof overflow_threshold_large.
  rewrite Rabs_right by lra. lra.
Qed.

Lemma math_exp_inv x e : math_exp x = Some e -> e = exp x.
Proof. intros H. apply checked_inv in H. tauto. Qed.


Lemma exp_le x y : x <= y -> exp x <= exp y.
Proof.
  intros [Hlt | ->]; [left; apply exp_increasing; exact Hlt | lra].
Qed.

Lemma exp_1_gt_2 : 2 < exp 1.
Proof. pose proof (exp_ineq1 1 ltac:(lra)). lra. Qed.

(** [2^n <= exp n <= 3^n]: enough to place [exp] on either side of the
    threshold. *)
Lemma exp_INR_bounds (n : nat) : 2 ^ n <= exp (INR n) <= 3 ^ n.
Proof.
  induction n as [| n [IHl IHu]].
  - simpl. rewrite exp_0. lra.
  - rewrite S_INR, exp_plus.
    pose proof exp_1_gt_2 as H2. pose proof exp_le_3 as H3.
    pose proof (exp_pos (INR n)) as Hpos.
    assert (0 < 2 ^ n) by (apply pow_lt; lra).
    simpl. split; nra.
Qed.

Lemma frac_part_2 : frac_part 2 = 0 /\ Int_part 2 = 2%Z.
Proof.
  destruct (Int_part_frac_part_spec 2 2%Z 0) as [Hi Hf]; [lra | lra |].
  split; congruence.
Qed.

(** Squaring: [q ** 2] is the product [q * q] unless that overflows. *)
Lemma float_pow_2 q : float_pow q 2 = checked (q ^ 2).
Proof.
  unfold float_pow.
  destruct (Req_dec_T 2 0) as [H20 | _]; [lra |].
  destruct (Rlt_dec 0 q) as [Hpos | Hnpos].
  - change 2 with (INR 2) at 1. rewrite Rpower_pow by exact Hpos.
    reflexivity.
  - destruct (Req_dec_T q 0) as [-> | Hne].
    + destruct (Rlt_dec 0 2); [| lra].
      pose proof overflow_threshold_large.
      rewrite checked_Some; [f_equal; lra |].
      replace (0 ^ 2) with 0 by lra. rewrite Rabs_R0. lra.
    + destruct frac_part_2 as [Hf Hi]. rewrite Hf, Hi.
      destruct (Req_dec_T 0 0); [reflexivity | lra].
Qed.

Lemma float_pow_2_Some q :
  q ^ 2 < overflow_threshold -> float_pow q 2 = Some (q ^ 2).
Proof.
  intros Hq. rewrite float_pow_2. apply checked_Some.
  rewrite Rabs_right; [exact Hq | apply Rle_ge, pow2_ge_0].
Qed.

Lemma float_pow_2_None q :
  overflow_threshold <= q ^ 2 -> float_pow q 2 = None.
Proof.
  intros Hq. rewrite float_pow_2. apply checked_None.
  rewrite Rabs_right; [exact Hq | apply Rle_ge, pow2_ge_0].
Qed.

(** A positive exponent keeps the unit interval: [x ** y] is defined for
    [0 <= x <= 1] and stays in it. *)
Lemma float_pow_unit x y :
  0 < y -> 0 <= x <= 1 ->
  exists v, float_pow x y = Some v /\ 0 <= v <= 1.
Proof.
  intros Hy [Hx0 Hx1]. unfold float_pow.
  destruct (Req_dec_T y 0); [lra |].
  destruct (Rlt_dec 0 x) as [Hpos | Hnpos].
  - assert (0 < Rpower x y <= 1) as Hr.
    { split; [apply exp_pos |].
      unfold Rpower. rewrite <- exp_0.
      destruct Hx1 as [Hlt | ->].
      - left. apply exp_increasing.
        assert (ln x < 0) by (rewrite <- ln_1; apply ln_increasing; lra).
        nra.
      - rewrite ln_1. rewrite Rmult_0_r. lra. }
    exists (Rpower x y). split; [| lra].
    apply checked_Some. pose proof overflow_threshold_large.
    rewrite Rabs_right by lra. lra.
  - assert (x = 0) as -> by lra.
    destruct (Req_dec_T 0 0); [| lra].
    destruct (Rlt_dec 0 y); [| lra].
    exists 0. split; [reflexivity | lra].
Qed.

(** ** The Gaussian helper *)

Lemma gauss_range x mu sigma : 0 < gauss x mu sigma <= 1.
Proof.
  unfold gauss. split; [apply exp_pos |].
  rewrite <- exp_0.
  assert (0 <= ((x - mu) / sigma) ^ 2) by apply pow2_ge_0.
  destruct (Req_dec_T (((x - mu) / sigma) ^ 2) 0) as [-> | Hne].
  - right. f_equal. lra.
  - left. apply exp_increasing. lra.
Qed.

Lemma _gaussian_eq x mu sigma :
  sigma <> 0 -> ((x - mu) / sigma) ^ 2 < overflow_threshold ->
  _gaussian x mu sigma = Some (gauss x mu sigma).
Proof.
  intros Hs Hq. unfold _gaussian, gauss.
  rewrite float_div_Some by exact Hs. simpl.
  rewrite float_pow_2_Some by exact Hq. simpl.
  apply math_exp_nonpos.
  pose proof (pow2_ge_0 ((x - mu) / sigma)). lra.
Qed.

Lemma _gaussian_sigma_zero x mu : _gaussian x mu 0 = None.
Proof. unfold _gaussian. rewrite float_div_zero. reflexivity. Qed.

Lemma _gaussian_overflow x mu sigma :
  sigma <> 0 -> overflow_threshold <= ((x - mu) / sigma) ^ 2 ->
  _gaussian x mu sigma = None.
Proof.
  intros Hs Hq. unfold _gaussian.
  rewrite float_div_Some by exact Hs. simpl.
  rewrite float_pow_2_None by exact Hq. reflexivity.
Qed.

(** Whenever [_gaussian] returns, [sigma] is not zero, the square did not
    overflow and the value is the bump. *)
Lemma _gaussian_inv x mu sigma g :
  _gaussian x mu sigma = Some g ->
  sigma <> 0 /\ ((x - mu) / sigma) ^ 2 < overflow_threshold /\
  g = gauss x mu sigma.
Proof.
  intros H.
  destruct (Req_dec_T sigma 0) as [-> | Hs];
    [rewrite _gaussian_sigma_zero in H; discriminate |].
  destruct (Rle_dec overflow_threshold (((x - mu) / sigma) ^ 2)) as [Ho | Ho];
    [rewrite _gaussian_overflow in H by assumption; discriminate |].
  rewrite _gaussian_eq in H by lra. injection H as <-.
  repeat split; [exact Hs | lra].
Qed.

Lemma gauss_sym x y mu sigma :
  x - mu = - (y - mu) -> gauss x mu sigma = gauss y mu sigma.
Proof.
  intros H. unfold gauss. rewrite H. f_equal. f_equal.
  unfold Rdiv. rewrite <- Ropp_mult_distr_l. simpl. ring.
Qed.

(** The bump is [exp (- c * d²)] for a positive constant [c] and the
    distance [d] to the centre. *)
Lemma gauss_scale mu sigma :
  sigma <> 0 ->
  exists c, 0 < c /\ forall t, gauss t mu sigma = exp (- (c * (t - mu)²)).
Proof.
  intros Hs.
  assert (0 < (/ sigma)²) as Hk.
  { apply Rlt_0_sqr. apply Rinv_neq_0_compat. exact Hs. }
  exists (0.5 * (/ sigma)²). split; [lra |].
  intros t. unfold gauss, Rsqr. apply f_equal.
  replace (-0.5) with (- (1 / 2)) by lra.
  replace 0.5 with (1 / 2) by lra.
  field. exact Hs.
Qed.

(** A point at least as close to the centre scores at least as high. *)
Lemma gauss_le x y mu sigma :
  sigma <> 0 -> Rabs (y - mu) <= Rabs (x - mu) ->
  gauss x mu sigma <= gauss y mu sigma.
Proof.
  intros Hs H. destruct (gauss_scale mu sigma Hs) as (c & Hc & Hg).
  rewrite !Hg. apply Rsqr_le_abs_1 in H.
  pose proof (Rmult_le_compat_l c _ _ (Rlt_le _ _ Hc) H) as Hm.
  destruct (Req_dec_T (c * (y - mu)²) (c * (x - mu)²)) as [-> | Hne];
    [lra |].
  left. apply exp_increasing. lra.
Qed.

Lemma gauss_centre mu sigma : gauss mu mu sigma = 1.
Proof.
  unfold gauss. rewrite <- exp_0. f_equal.
  replace (mu - mu) with 0 by lra.
  unfold Rdiv. rewrite Rmult_0_l. simpl. lra.
Qed.

(** ** Base-10 logarithm *)

Lemma ln_10_pos : 0 < ln 10.
Proof. rewrite <- ln_1. apply ln_increasing; lra. Qed.

Lemma log10_mult x y : 0 < x -> 0 < y -> log10 (x * y) = log10 x + log10 y.
Proof.
  intros Hx Hy. unfold log10. rewrite ln_mult by assumption.
  pose proof ln_10_pos. field. lra.
Qed.

Lemma log10_div x y : 0 < x -> 0 < y -> log10 (x / y) = log10 x - log10 y.
Proof.
  intros Hx Hy. unfold log10. change (x / y) with (x * / y).
  assert (0 < / y) by (apply Rinv_0_lt_compat; exact Hy).
  rewrite ln_mult by assumption. rewrite ln_Rinv by assumption.
  pose proof ln_10_pos. field. lra.
Qed.

Lemma log10_increasing x y : 0 < x -> x < y -> log10 x < log10 y.
Proof.
  intros Hx Hxy. unfold log10.
  pose proof ln_10_pos as HL.
  pose proof (ln_increasing x y Hx Hxy) as Hln.
  apply Rmult_lt_compat_r; [apply Rinv_0_lt_compat; exact HL | exact Hln].
Qed.

Lemma log10_le x y : 0 < x -> x <= y -> log10 x <= log10 y.
Proof.
  intros Hx [Hlt | ->]; [left; apply log10_increasing; assumption | lra].
Qed.

Lemma log10_inj x y : 0 < x -> 0 < y -> log10 x = log10 y -> x = y.
Proof.
  intros Hx Hy H. apply ln_inv; [exact Hx | exact Hy |].
  pose proof ln_10_pos as HL. unfold log10 in H.
  apply (Rmult_eq_reg_r (/ ln 10)); [exact H |].
  apply Rinv_neq_0_compat. lra.
Qed.

Lemma log10_1 : log10 1 = 0.
Proof. unfold log10. rewrite ln_1. pose proof ln_10_pos. field. lra. Qed.

Lemma log10_pow10 (n : nat) : log10 (10 ^ n) = INR n.
Proof.
  unfold log10. rewrite ln_pow by lra.
  pose proof ln_10_pos. field. lra.
Qed.

Lemma log10_tenth : log10 0.1 = -1.
Proof.
  replace 0.1 with (1 / 10) by lra.
  rewrite log10_div by lra. rewrite log10_1.
  replace 10 with (10 ^ 1) at 1 by lra. rewrite log10_pow10. simpl. lra.
Qed.

Lemma log10_50_bounds : 1 < log10 50 < 2.
Proof.
  split.
  - replace 1 with (INR 1) by reflexivity. rewrite <- log10_pow10.
    apply log10_increasing; lra.
  - replace 2 with (INR 2) by (simpl; lra). rewrite <- log10_pow10.
    apply log10_increasing; lra.
Qed.

(** Fifty times the largest double is still below [10^311]. *)
Lemma float_max_pow10 : 50 * float_max < 10 ^ 311.
Proof.
  unfold float_max.
  replace 50 with (IZR 50) by reflexivity.
  replace 10 with (IZR 10) by reflexivity.
  rewrite <- mult_IZR, pow_IZR. apply IZR_lt. reflexivity.
Qed.

Lemma float_max_pos : 1000 < float_max.
Proof. unfold float_max. apply IZR_lt. reflexivity. Qed.

(** ** Closed forms of the transfer functions *)

(** The size score of every size up to [10^311], which covers fifty
    times the largest double: the logarithm keeps the square far from
    the overflow threshold. *)
Lemma size_transfer_function_eq s :
  s <= 10 ^ 311 ->
  size_transfer_function s
  = Some (gauss (log10 (py_max s 0.1)) (log10 50) 0.25).
Proof.
  intros Hs. unfold size_transfer_function. cbv zeta.
  assert (0.1 <= py_max s 0.1 <= 10 ^ 311) as [Hlo Hhi].
  { assert (0.1 <= 10 ^ 311) by (apply Rle_trans with (10 ^ 0);
      [simpl; lra | apply Rle_pow; [lra | lia]]).
    py_cases. }
  rewrite (math_log10_pos (py_max s 0.1)) by lra. simpl.
  rewrite (math_log10_pos 50) by lra. simpl.
  assert (0 < py_max s 0.1) as Hpos by lra.
  pose proof (log10_le 0.1 (py_max s 0.1) ltac:(lra) Hlo) as Hl1.
  pose proof (log10_le (py_max s 0.1) (10 ^ 311) Hpos Hhi) as Hl2.
  rewrite log10_tenth in Hl1. rewrite log10_pow10 in Hl2.
  replace (INR 311) with 311 in Hl2 by (rewrite INR_IZR_INZ; reflexivity).
  pose proof log10_50_bounds as [H50l H50u].
  pose proof overflow_threshold_large as HT.
  rewrite _gaussian_eq; [| lra |].
  - simpl. rewrite clamp_id; [reflexivity |].
    pose proof (gauss_range (log10 (py_max s 0.1)) (log10 50) 0.25). lra.
  - set (d := log10 (py_max s 0.1) - log10 50) in *.
    assert (-3 <= d <= 310) as Hd by (unfold d; lra).
    replace ((d / 0.25) ^ 2) with (16 * (d * d))
      by (replace 0.25 with (1 / 4) by lra; field).
    nra.
Qed.

Lemma size_score_above_floor s :
  0.1 <= s <= 10 ^ 311 ->
  size_transfer_function s = Some (gauss (log10 s) (log10 50) 0.25).
Proof.
  intros [Hlo Hhi]. rewrite size_transfer_function_eq by exact Hhi.
  assert (py_max s 0.1 = s) as -> by py_cases. reflexivity.
Qed.

Lemma size_score_below_floor s :
  s <= 0.1 ->
  size_transfer_function s = Some (gauss (log10 0.1) (log10 50) 0.25).
Proof.
  intros Hs.
  assert (0.1 <= 10 ^ 311) by (apply Rle_trans with (10 ^ 0);
    [simpl; lra | apply Rle_pow; [lra | lia]]).
  rewrite size_transfer_function_eq by lra.
  assert (py_max s 0.1 = 0.1) as -> by py_cases. reflexivity.
Qed.

Lemma lipophilicity_transfer_function_eq l :
  (l - 3) ^ 2 < overflow_threshold ->
  lipophilicity_transfer_function l = Some (gauss l 3 1).
Proof.
  intros Hl. unfold lipophilicity_transfer_function.
  rewrite _gaussian_eq; [| lra |].
  - simpl. rewrite clamp_id; [reflexivity |].
    pose proof (gauss_range l 3 1). lra.
  - replace ((l - 3) / 1) with (l - 3) by field. exact Hl.
Qed.

(** The squaring overflows for a [logP] too far from 3. *)
Lemma lipophilicity_transfer_function_None l :
  overflow_threshold <= (l - 3) ^ 2 ->
  lipophilicity_transfer_function l = None.
Proof.
  intros Hl. unfold lipophilicity_transfer_function.
  rewrite _gaussian_overflow; [reflexivity | lra |].
  replace ((l - 3) / 1) with (l - 3) by field. exact Hl.
Qed.

Lemma lipophilicity_transfer_function_inv l y :
  lipophilicity_transfer_function l = Some y ->
  (l - 3) ^ 2 < overflow_threshold /\ y = gauss l 3 1.
Proof.
  intros H.
  destruct (Rle_dec overflow_threshold ((l - 3) ^ 2)) as [Ho | Ho];
    [rewrite lipophilicity_transfer_function_None in H by exact Ho;
     discriminate |].
  rewrite lipophilicity_transfer_function_eq in H by lra.
  injection H as <-. split; [lra | reflexivity].
Qed.

Lemma charge_transfer_function_eq z :
  charge_transfer_function z
  = Some (py_max 0 (py_min 1 (1 - py_min (py_max (Rabs z) 0) 40 / 40))).
Proof.
  unfold charge_transfer_function, py_abs.
  rewrite float_div_Some by lra. reflexivity.
Qed.

(** The triangle: [1 - |z| / 40] inside the window, [0] from 40 mV on. *)
Lemma charge_transfer_function_triangle z :
  Rabs z <= 40 -> charge_transfer_function z = Some (1 - Rabs z / 40).
Proof.
  intros Hz. rewrite charge_transfer_function_eq. f_equal.
  pose proof (Rabs_pos z). py_cases.
Qed.

Lemma charge_transfer_function_far z :
  40 <= Rabs z -> charge_transfer_function z = Some 0.
Proof.
  intros Hz. rewrite charge_transfer_function_eq. f_equal. py_cases.
Qed.

Lemma dose_transfer_function_eq d :
  dose_transfer_function d = Some (py_max 0 d / (2 + py_max 0 d)).
Proof.
  unfold dose_transfer_function.
  pose proof (py_max_lb_l 0 d) as Hd.
  rewrite float_div_Some by lra. simpl.
  rewrite clamp_id; [reflexivity |].
  split.
  - apply Rmult_le_pos; [lra | left; apply Rinv_0_lt_compat; lra].
  - apply (Rmult_le_reg_r (2 + py_max 0 d)); [lra |].
    unfold Rdiv. rewrite Rmult_assoc, Rinv_l by lra. lra.
Qed.

(** On a non-negative dose the input clamp does nothing. *)
Lemma dose_transfer_function_nonneg d :
  0 <= d -> dose_transfer_function d = Some (d / (2 + d)).
Proof.
  intros Hd. rewrite dose_transfer_function_eq.
  assert (py_max 0 d = d) as -> by py_cases. reflexivity.
Qed.

Lemma dose_transfer_function_nonpos d :
  d <= 0 -> dose_transfer_function d = Some 0.
Proof.
  intros Hd. rewrite dose_transfer_function_eq.
  assert (py_max 0 d = 0) as -> by py_cases.
  f_equal. unfold Rdiv. apply Rmult_0_l.
Qed.

Lemma saturation_below_one d : 0 <= d -> d / (2 + d) < 1.
Proof.
  intros Hd. apply (Rmult_lt_reg_r (2 + d)); [lra |].
  unfold Rdiv. rewrite Rmult_assoc, Rinv_l by lra. lra.
Qed.

Lemma inflammation_transfer_function_unit i :
  exists y, inflammation_transfer_function i = Some y /\ 0 <= y <= 1.
Proof.
  unfold inflammation_transfer_function.
  apply float_pow_unit; [lra | apply clamp_unit].
Qed.

Lemma Rpower_one y : Rpower 1 y = 1.
Proof. unfold Rpower. rewrite ln_1, Rmult_0_r. apply exp_0. Qed.

(** For a base strictly between 0 and 1 the power 0.7 lies strictly
    between the base and 1. *)
Lemma Rpower_boost x : 0 < x < 1 -> x < Rpower x 0.7 < 1.
Proof.
  intros [H0 H1].
  assert (ln x < 0) as Hln by (rewrite <- ln_1; apply ln_increasing; lra).
  unfold Rpower. split.
  - rewrite <- (exp_ln x H0) at 1. apply exp_increasing. nra.
  - rewrite <- exp_0. apply exp_increasing. nra.
Qed.

Lemma float_pow_inside x :
  0 < x <= 1 -> float_pow x 0.7 = Some (Rpower x 0.7).
Proof.
  intros [H0 H1]. unfold float_pow.
  destruct (Req_dec_T 0.7 0); [lra |].
  destruct (Rlt_dec 0 x); [| lra].
  apply checked_Some. pose proof overflow_threshold_large.
  assert (0 < Rpower x 0.7 <= 1).
  { destruct H1 as [Hlt | ->].
    - pose proof (Rpower_boost x ltac:(lra)). lra.
    - rewrite Rpower_one. lra. }
  rewrite Rabs_right by lra. lra.
Qed.

Lemma inflammation_transfer_function_low i :
  i <= 0 -> inflammation_transfer_function i = Some 0.
Proof.
  intros Hi. unfold inflammation_transfer_function. cbv zeta.
  assert (py_max 0 (py_min 1 i) = 0) as -> by py_cases.
  unfold float_pow.
  destruct (Req_dec_T 0.7 0); [lra |].
  destruct (Rlt_dec 0 0); [lra |].
  destruct (Req_dec_T 0 0); [| lra].
  destruct (Rlt_dec 0 0.7); [reflexivity | lra].
Qed.

Lemma inflammation_transfer_function_inside i :
  0 < i <= 1 -> inflammation_transfer_function i = Some (Rpower i 0.7).
Proof.
  intros Hi. unfold inflammation_transfer_function. cbv zeta.
  rewrite clamp_id by lra. apply float_pow_inside. exact Hi.
Qed.

Lemma inflammation_transfer_function_high i :
  1 <= i -> inflammation_transfer_function i = Some 1.
Proof.
  intros Hi. unfold inflammation_transfer_function. cbv zeta.
  assert (py_max 0 (py_min 1 i) = 1) as -> by py_cases.
  rewrite float_pow_inside by lra. f_equal. apply Rpower_one.
Qed.

(** ** Logistic *)

Lemma logistic_eq z :
  exp (- z) < overflow_threshold -> logistic z = Some (1 / (1 + exp (- z))).
Proof.
  intros Hz. unfold logistic, math_exp.
  pose proof (exp_pos (- z)).
  rewrite checked_Some by (rewrite Rabs_right; lra). simpl.
  rewrite float_div_Some by lra. reflexivity.
Qed.

(** [math.exp(-z)] overflows for a logit too far below zero. *)
Lemma logistic_None z :
  overflow_threshold <= exp (- z) -> logistic z = None.
Proof.
  intros Hz. unfold logistic, math_exp.
  pose proof (exp_pos (- z)).
  rewrite checked_None by (rewrite Rabs_right; lra). reflexivity.
Qed.

Lemma logistic_inv z p :
  logistic z = Some p ->
  exp (- z) < overflow_threshold /\ p = 1 / (1 + exp (- z)).
Proof.
  intros H.
  destruct (Rle_dec overflow_threshold (exp (- z))) as [Ho | Ho];
    [rewrite logistic_None in H by exact Ho; discriminate |].
  rewrite logistic_eq in H by lra. injection H as <-.
  split; [lra | reflexivity].
Qed.

Lemma logistic_range z : 0 < 1 / (1 + exp (- z)) < 1.
Proof.
  pose proof (exp_pos (- z)) as He.
  assert (0 < / (1 + exp (- z))) as Hinv by (apply Rinv_0_lt_compat; lra).
  split; [lra |].
  apply (Rmult_lt_reg_r (1 + exp (- z))); [lra |].
  unfold Rdiv. rewrite Rmult_assoc, Rinv_l by lra. lra.
Qed.

Lemma logistic_le z1 z2 :
  z1 <= z2 -> 1 / (1 + exp (- z1)) <= 1 / (1 + exp (- z2)).
Proof.
  intros Hz.
  pose proof (exp_pos (- z1)) as H1. pose proof (exp_pos (- z2)) as H2.
  assert (exp (- z2) <= exp (- z1)) as He.
  { destruct Hz as [Hlt | ->]; [| lra].
    left. apply exp_increasing. lra. }
  assert (/ (1 + exp (- z1)) <= / (1 + exp (- z2)))
    by (apply Rinv_le_contravar; lra).
  lra.
Qed.

Lemma logistic_zero : 1 / (1 + exp (- 0)) = 1 / 2.
Proof. rewrite Ropp_0, exp_0. lra. Qed.

(** ** The range of [math.exp]

    [math.exp] overflows between 709 and 710. Both bounds follow from
    [1 + x <= exp x] at a small argument, squared up twenty times or so,
    each square rounded outwards to 26 digits. *)

Lemma exp_upper_start x u : 0 < 1 - x -> 1 <= u * (1 - x) -> exp x <= u.
Proof.
  intros Hx Hu.
  pose proof (exp_ineq1_le (- x)) as Hlow. rewrite exp_Ropp in Hlow.
  pose proof (exp_pos x) as Hpos.
  assert (exp x <= / (1 - x)) as Hinv.
  { rewrite <- (Rinv_inv (exp x)).
    apply Rinv_le_contravar; [exact Hx | lra]. }
  apply Rle_trans with (1 := Hinv).
  apply (Rmult_le_reg_r (1 - x)); [exact Hx |].
  rewrite Rinv_l by lra. exact Hu.
Qed.

Lemma exp_double_upper y u x v :
  x = 2 * y -> 0 <= u -> exp y <= u -> u * u <= v -> exp x <= v.
Proof.
  intros -> Hu Hy Hv. replace (2 * y) with (y + y) by lra.
  rewrite exp_plus. pose proof (exp_pos y).
  apply Rle_trans with (u * u); [| exact Hv].
  apply Rmult_le_compat; lra.
Qed.

Lemma exp_double_lower y l x v :
  x = 2 * y -> 0 <= l -> l <= exp y -> v <= l * l -> v <= exp x.
Proof.
  intros -> Hl Hy Hv. replace (2 * y) with (y + y) by lra.
  rewrite exp_plus.
  apply Rle_trans with (l * l); [exact Hv |].
  apply Rmult_le_compat; lra.
Qed.

(** An upper bound of [exp 709], below the overflow threshold. *)
Lemma exp_709_upper :
  exp (709) <= 10445607273102030374969147e283.
Proof.
  assert (exp (709 / 1048576) <= 10006766125853758158239548e-25) as H0
    by (apply exp_upper_start; lra).
  assert (exp (709 / 524288) <= 10013536829753423205935671e-25) as H1
    by (apply (exp_double_upper (709 / 1048576) 10006766125853758158239548e-25);
        [lra | lra | exact H0 | lra]).
  clear H0.
  assert (exp (709 / 262144) <= 10027091984082823728248784e-25) as H2
    by (apply (exp_double_upper (709 / 524288) 10013536829753423205935671e-25);
        [lra | lra | exact H1 | lra]).
  clear H1.
  assert (exp (709 / 131072) <= 10054257365725801853922362e-25) as H3
    by (apply (exp_double_upper (709 / 262144) 10027091984082823728248784e-25);
        [lra | lra | exact H2 | lra]).
  clear H2.
  assert (exp (709 / 65536) <= 10108809117625154049618592e-25) as H4
    by (apply (exp_double_upper (709 / 131072) 10054257365725801853922362e-25);
        [lra | lra | exact H3 | lra]).
  clear H3.
  assert (exp (709 / 32768) <= 10218802177658144560201861e-25) as H5
    by (apply (exp_double_upper (709 / 65536) 10108809117625154049618592e-25);
        [lra | lra | exact H4 | lra]).
  clear H4.
  assert (exp (709 / 16384) <= 10442391794611083745857613e-25) as H6
    by (apply (exp_double_upper (709 / 32768) 10218802177658144560201861e-25);
        [lra | lra | exact H5 | lra]).
  clear H5.
  assert (exp (709 / 8192) <= 10904354639216089022275407e-25) as H7
    by (apply (exp_double_upper (709 / 16384) 10442391794611083745857613e-25);
        [lra | lra | exact H6 | lra]).
  clear H6.
  assert (exp (709 / 4096) <= 11890495009779344298601832e-25) as H8
    by (apply (exp_double_upper (709 / 8192) 10904354639216089022275407e-25);
        [lra | lra | exact H7 | lra]).
  clear H7.
  assert (exp (709 / 2048) <= 14138387157758748906724276e-25) as H9
    by (apply (exp_double_upper (709 / 4096) 11890495009779344298601832e-25);
        [lra | lra | exact H8 | lra]).
  clear H8.
  assert (exp (709 / 1024) <= 19989399142267751424601229e-25) as H10
    by (apply (exp_double_upper (709 / 2048) 14138387157758748906724276e-25);
        [lra | lra | exact H9 | lra]).
  clear H9.
  assert (exp (709 / 512) <= 39957607806889471635845787e-25) as H11
    by (apply (exp_double_upper (709 / 1024) 19989399142267751424601229e-25);
        [lra | lra | exact H10 | lra]).
  clear H10.
  assert (exp (709 / 256) <= 15966104216491944511961656e-24) as H12
    by (apply (exp_double_upper (709 / 512) 39957607806889471635845787e-25);
        [lra | lra | exact H11 | lra]).
  clear H11.
  assert (exp (709 / 128) <= 25491648385188184934918013e-23) as H13
    by (apply (exp_double_upper (709 / 256) 15966104216491944511961656e-24);
        [lra | lra | exact H12 | lra]).
  clear H12.
  assert (exp (709 / 64) <= 64982413739406739660960361e-21) as H14
    by (apply (exp_double_upper (709 / 128) 25491648385188184934918013e-23);
        [lra | lra | exact H13 | lra]).
  clear H13.
  assert (exp (709 / 32) <= 42227140953994378099863390e-16) as H15
    by (apply (exp_double_upper (709 / 64) 64982413739406739660960361e-21);
        [lra | lra | exact H14 | lra]).
  clear H14.
  assert (exp (709 / 16) <= 17831314331485092365770042e-6) as H16
    by (apply (exp_double_upper (709 / 32) 42227140953994378099863390e-16);
        [lra | lra | exact H15 | lra]).
  clear H15.
  assert (exp (709 / 8) <= 31795577078822564646846341e13) as H17
    by (apply (exp_double_upper (709 / 16) 17831314331485092365770042e-6);
        [lra | lra | exact H16 | lra]).
  clear H16.
  assert (exp (709 / 4) <= 10109587217753468533455580e52) as H18
    by (apply (exp_double_upper (709 / 8) 31795577078822564646846341e13);
        [lra | lra | exact H17 | lra]).
  clear H17.
  assert (exp (709 / 2) <= 10220375371336431679803626e129) as H19
    by (apply (exp_double_upper (709 / 4) 10109587217753468533455580e52);
        [lra | lra | exact H18 | lra]).
  clear H18.
  assert (exp (709) <= 10445607273102030374969147e283) as H20
    by (apply (exp_double_upper (709 / 2) 10220375371336431679803626e129);
        [lra | lra | exact H19 | lra]).
  clear H19.
  exact H20.
Qed.

(** A lower bound of [exp 710], above the overflow threshold. *)
Lemma exp_710_lower :
  19810592407486245407156073e283 <= exp (710).
Proof.
  assert (10003385543823242187500000e-25 <= exp (710 / 2097152)) as H0
    by (pose proof (exp_ineq1_le (710 / 2097152)); lra).
  assert (10006772233837182284332811e-25 <= exp (710 / 1048576)) as H1
    by (apply (exp_double_lower (710 / 2097152) 10003385543823242187500000e-25);
        [lra | lra | exact H0 | lra]).
  clear H0.
  assert (10013549053989479116334304e-25 <= exp (710 / 524288)) as H2
    by (apply (exp_double_lower (710 / 1048576) 10006772233837182284332811e-25);
        [lra | lra | exact H1 | lra]).
  clear H1.
  assert (10027116465665359214664436e-25 <= exp (710 / 262144)) as H3
    by (apply (exp_double_lower (710 / 524288) 10013549053989479116334304e-25);
        [lra | lra | exact H2 | lra]).
  clear H2.
  assert (10054306461601736489844517e-25 <= exp (710 / 131072)) as H4
    by (apply (exp_double_lower (710 / 262144) 10027116465665359214664436e-25);
        [lra | lra | exact H3 | lra]).
  clear H3.
  assert (10108907842380643067668846e-25 <= exp (710 / 65536)) as H5
    by (apply (exp_double_lower (710 / 131072) 10054306461601736489844517e-25);
        [lra | lra | exact H4 | lra]).
  clear H4.
  assert (10219001776574486834766595e-25 <= exp (710 / 32768)) as H6
    by (apply (exp_double_lower (710 / 65536) 10108907842380643067668846e-25);
        [lra | lra | exact H5 | lra]).
  clear H5.
  assert (10442799730963251814586694e-25 <= exp (710 / 16384)) as H7
    by (apply (exp_double_lower (710 / 32768) 10219001776574486834766595e-25);
        [lra | lra | exact H6 | lra]).
  clear H6.
  assert (10905206622100616447950373e-25 <= exp (710 / 8192)) as H8
    by (apply (exp_double_lower (710 / 16384) 10442799730963251814586694e-25);
        [lra | lra | exact H7 | lra]).
  clear H7.
  assert (11892353147070713719295117e-25 <= exp (710 / 4096)) as H9
    by (apply (exp_double_lower (710 / 8192) 10905206622100616447950373e-25);
        [lra | lra | exact H8 | lra]).
  clear H8.
  assert (14142806337464270865339571e-25 <= exp (710 / 2048)) as H10
    by (apply (exp_double_lower (710 / 4096) 11892353147070713719295117e-25);
        [lra | lra | exact H9 | lra]).
  clear H9.
  assert (20001897109901954344203346e-25 <= exp (710 / 1024)) as H11
    by (apply (exp_double_lower (710 / 2048) 14142806337464270865339571e-25);
        [lra | lra | exact H10 | lra]).
  clear H10.
  assert (40007588799510415386135531e-25 <= exp (710 / 512)) as H12
    by (apply (exp_double_lower (710 / 1024) 20001897109901954344203346e-25);
        [lra | lra | exact H11 | lra]).
  clear H11.
  assert (16006071615507112401716467e-24 <= exp (710 / 256)) as H13
    by (apply (exp_double_lower (710 / 512) 40007588799510415386135531e-25);
        [lra | lra | exact H12 | lra]).
  clear H12.
  assert (25619432856074246306271400e-23 <= exp (710 / 128)) as H14
    by (apply (exp_double_lower (710 / 256) 16006071615507112401716467e-24);
        [lra | lra | exact H13 | lra]).
  clear H13.
  assert (65635533986689661325265780e-21 <= exp (710 / 64)) as H15
    by (apply (exp_double_lower (710 / 128) 25619432856074246306271400e-23);
        [lra | lra | exact H14 | lra]).
  clear H14.
  assert (43080233217178936269030994e-16 <= exp (710 / 32)) as H16
    by (apply (exp_double_lower (710 / 64) 65635533986689661325265780e-21);
        [lra | lra | exact H15 | lra]).
  clear H15.
  assert (18559064940465274014907021e-6 <= exp (710 / 16)) as H17
    by (apply (exp_double_lower (710 / 32) 43080233217178936269030994e-16);
        [lra | lra | exact H16 | lra]).
  clear H16.
  assert (34443889146440730491532434e13 <= exp (710 / 8)) as H18
    by (apply (exp_double_lower (710 / 16) 18559064940465274014907021e-6);
        [lra | lra | exact H17 | lra]).
  clear H17.
  assert (11863814995322975537034047e52 <= exp (710 / 4)) as H19
    by (apply (exp_double_lower (710 / 8) 34443889146440730491532434e13);
        [lra | lra | exact H18 | lra]).
  clear H18.
  assert (14075010624325029406366972e129 <= exp (710 / 2)) as H20
    by (apply (exp_double_lower (710 / 4) 11863814995322975537034047e52);
        [lra | lra | exact H19 | lra]).
  clear H19.
  assert (19810592407486245407156073e283 <= exp (710)) as H21
    by (apply (exp_double_lower (710 / 2) 14075010624325029406366972e129);
        [lra | lra | exact H20 | lra]).
  clear H20.
  exact H21.
Qed.

(** [math.exp(709.0)] is a double, [math.exp(710.0)] is not. *)
Lemma exp_709_in_range : exp 709 < overflow_threshold.
Proof.
  apply Rle_lt_trans with (1 := exp_709_upper).
  unfold overflow_threshold.
  let v := eval vm_compute in (2 ^ 1024 - 2 ^ 970)%Z in
  change (2 ^ 1024 - 2 ^ 970)%Z with v.
  lra.
Qed.

Lemma exp_710_out_of_range : overflow_threshold <= exp 710.
Proof.
  apply Rle_trans with (2 := exp_710_lower).
  unfold overflow_threshold.
  let v := eval vm_compute in (2 ^ 1024 - 2 ^ 970)%Z in
  change (2 ^ 1024 - 2 ^ 970)%Z with v.
  lra.
Qed.

(** A logit of at least -709 is within the range of [math.exp]. *)
Lemma exp_within_range z : -709 <= z -> exp (- z) < overflow_threshold.
Proof.
  intros Hz.
  apply Rle_lt_trans with (2 := exp_709_in_range).
  apply exp_le. lra.
Qed.

(** A logit of at most -710 is beyond it. *)
Lemma exp_beyond_range z : z <= -710 -> overflow_threshold <= exp (- z).
Proof.
  intros Hz.
  apply Rle_trans with (1 := exp_710_out_of_range).
  apply exp_le. lra.
Qed.

(** ** The aggregator *)

(** Peel the successful steps off a computation in the option monad. *)
Ltac inv_bind H :=
  repeat match type of H with
         | (?o ≫= _) = Some _ =>
             let E := fresh "E" in
             destruct o eqn:E; simpl in H; [| discriminate]
         end.

Lemma score_map_lookup s a l c i f d k z :
  score_map s a l c i f d k z !! "size_score" = Some s /\
  score_map s a l c i f d k z !! "affinity_score" = Some a /\
  score_map s a l c i f d k z !! "lipophilicity_score" = Some l /\
  score_map s a l c i f d k z !! "charge_score" = Some c /\
  score_map s a l c i f d k z !! "integrity_score" = Some i /\
  score_map s a l c i f d k z !! "inflammation_score" = Some f /\
  score_map s a l c i f d k z !! "dose_score" = Some d /\
  score_map s a l c i f d k z !! "carrier_score" = Some k /\
  score_map s a l c i f d k z !! "Z" = Some z.
Proof.
  unfold score_map.
  repeat split;
    repeat (rewrite lookup_insert_ne by done); by rewrite lookup_insert_eq.
Qed.

(** The dictionary has exactly the nine keys of the literal. *)
Lemma score_map_dom s a l c i f d k z :
  dom (score_map s a l c i f d k z)
  = ({[ "size_score"; "affinity_score"; "lipophilicity_score";
        "charge_score"; "integrity_score"; "inflammation_score";
        "dose_score"; "carrier_score"; "Z" ]} : gset string).
Proof. unfold score_map. rewrite !dom_insert_L, dom_empty_L. set_solver. Qed.

(** When the aggregator returns, every step returned: the five fallible
    transfer functions gave the scores, [math.exp] did not overflow, the
    probability is the logistic of the weighted sum and the dictionary is
    the literal of the nine values. *)
Lemma compute_bbb_probability_inv (p : BBBInputParams) prob components :
  compute_bbb_probability p = Some (prob, components) ->
  exists s l c f d,
    size_transfer_function (size_nm p) = Some s /\
    lipophilicity_transfer_function (logP p) = Some l /\
    charge_transfer_function (zeta_mV p) = Some c /\
    inflammation_transfer_function (inflammation p) = Some f /\
    dose_transfer_function (dose_relative p) = Some d /\
    let a := identity_clamp (apoe3_affinity p) in
    let i := integrity_transfer_function (bbb_tightness p) in
    let k := identity_clamp (apoe3_expression p) in
    let z := weighted_sum p s a l c i f d k in
    exp (- z) < overflow_threshold /\
    prob = 1 / (1 + exp (- z)) /\
    components = score_map s a l c i f d k z.
Proof.
  intros H. unfold compute_bbb_probability in H.
  destruct (size_transfer_function (size_nm p)) as [s |] eqn:Hs;
    simpl in H; [| discriminate].
  destruct (lipophilicity_transfer_function (logP p)) as [l |] eqn:Hl;
    simpl in H; [| discriminate].
  destruct (charge_transfer_function (zeta_mV p)) as [c |] eqn:Hc;
    simpl in H; [| discriminate].
  destruct (inflammation_transfer_function (inflammation p)) as [f |] eqn:Hf;
    simpl in H; [| discriminate].
  destruct (dose_transfer_function (dose_relative p)) as [d |] eqn:Hd;
    simpl in H; [| discriminate].
  match type of H with (logistic ?z ≫= _) = _ =>
    destruct (logistic z) as [pr |] eqn:Hp; simpl in H; [| discriminate]
  end.
  injection H as <- <-.
  apply logistic_inv in Hp. destruct Hp as [Hexp ->].
  exists s, l, c, f, d. repeat (split; [reflexivity |]).
  cbv zeta. split; [exact Hexp |]. split; reflexivity.
Qed.

(** Conversely the aggregator returns once the five transfer functions
    return and the logit is within the range of [math.exp]. *)
Lemma compute_bbb_probability_returns (p : BBBInputParams) s l c f d :
  size_transfer_function (size_nm p) = Some s ->
  lipophilicity_transfer_function (logP p) = Some l ->
  charge_transfer_function (zeta_mV p) = Some c ->
  inflammation_transfer_function (inflammation p) = Some f ->
  dose_transfer_function (dose_relative p) = Some d ->
  let a := identity_clamp (apoe3_affinity p) in
  let i := integrity_transfer_function (bbb_tightness p) in
  let k := identity_clamp (apoe3_expression p) in
  let z := weighted_sum p s a l c i f d k in
  exp (- z) < overflow_threshold ->
  compute_bbb_probability p
  = Some (1 / (1 + exp (- z)), score_map s a l c i f d k z).
Proof.
  intros Hs Hl Hc Hf Hd a i k z Hz.
  unfold compute_bbb_probability.
  rewrite Hs, Hl, Hc, Hf, Hd. cbn [mbind option_bind].
  unfold z, a, i, k, weighted_sum, identity_clamp in *. cbv zeta.
  rewrite logistic_eq by exact Hz. reflexivity.
Qed.


(** A score returned by a transfer function lies in [0,1]. *)
Lemma score_in_unit :
  (forall x y, size_transfer_function x = Some y -> 0 <= y <= 1) /\
  (forall x y, lipophilicity_transfer_function x = Some y -> 0 <= y <= 1) /\
  (forall x y, charge_transfer_function x = Some y -> 0 <= y <= 1) /\
  (forall x y, inflammation_transfer_function x = Some y -> 0 <= y <= 1) /\
  (forall x y, dose_transfer_function x = Some y -> 0 <= y <= 1).
Proof.
  split; [| split; [| split; [| split]]]; intros x y H.
  - unfold size_transfer_function in H. cbv zeta in H.
    inv_bind H. injection H as <-. apply clamp_unit.
  - unfold lipophilicity_transfer_function in H.
    inv_bind H. injection H as <-. apply clamp_unit.
  - rewrite charge_transfer_function_eq in H. injection H as <-.
    apply clamp_unit.
  - destruct (inflammation_transfer_function_unit x) as (v & Hv & Hv01).
    rewrite H in Hv. injection Hv as <-. exact Hv01.
  - unfold dose_transfer_function in H. cbv zeta in H.
    inv_bind H. injection H as <-. apply clamp_unit.
Qed.

Lemma term_bound w s : 0 <= s <= 1 -> - Rabs w <= w * s <= Rabs w.
Proof.
  intros Hs. unfold Rabs. destruct (Rcase_abs w); split; nra.
Qed.

(** On slider values no step can raise and no clamp fires. *)
Lemma compute_bbb_probability_sliders (p : BBBInputParams) :
  slider_ranges p ->
  exists f,
    inflammation_transfer_function (inflammation p) = Some f /\
    0 <= f <= 1 /\
    let s := gauss (log10 (size_nm p)) (log10 50) 0.25 in
    let l := gauss (logP p) 3 1 in
    let c := 1 - Rabs (zeta_mV p) / 40 in
    let d := dose_relative p / (2 + dose_relative p) in
    let z := weighted_sum p s (apoe3_affinity p) l c (1 - bbb_tightness p)
               f d (apoe3_expression p) in
    size_transfer_function (size_nm p) = Some s /\
    lipophilicity_transfer_function (logP p) = Some l /\
    charge_transfer_function (zeta_mV p) = Some c /\
    dose_transfer_function (dose_relative p) = Some d /\
    -34 <= z <= 30 /\
    compute_bbb_probability p
    = Some (1 / (1 + exp (- z)),
            score_map s (apoe3_affinity p) l c (1 - bbb_tightness p) f d
              (apoe3_expression p) z).
Proof.
  intros ((Rsize & Raff & RlogP & Rzeta) & (Rdose & Rexp & Rtight & Rinf)
          & (Wsize & Waff & Wlip & Wcharge)
          & (Wint & Winf & Wdose & Wcar)).
  destruct (inflammation_transfer_function_unit (inflammation p))
    as (f & Hf & Hf01).
  exists f. split; [exact Hf |]. split; [exact Hf01 |]. cbv zeta.
  pose proof overflow_threshold_large as HT.
  assert (500 <= 10 ^ 311) as Hbig.
  { apply Rle_trans with (10 ^ 3); [simpl; lra | apply Rle_pow; [lra | lia]]. }
  assert (size_transfer_function (size_nm p)
          = Some (gauss (log10 (size_nm p)) (log10 50) 0.25)) as Hs
    by (apply size_score_above_floor; lra).
  assert (lipophilicity_transfer_function (logP p)
          = Some (gauss (logP p) 3 1)) as Hl
    by (apply lipophilicity_transfer_function_eq; nra).
  assert (Rabs (zeta_mV p) <= 40) as Hz40 by (apply Rabs_le; lra).
  assert (charge_transfer_function (zeta_mV p)
          = Some (1 - Rabs (zeta_mV p) / 40)) as Hc
    by (apply charge_transfer_function_triangle; exact Hz40).
  assert (dose_transfer_function (dose_relative p)
          = Some (dose_relative p / (2 + dose_relative p))) as Hd
    by (apply dose_transfer_function_nonneg; lra).
  split; [exact Hs |]. split; [exact Hl |]. split; [exact Hc |].
  split; [exact Hd |].
  destruct score_in_unit as (Us & Ul & Uc & _ & Ud).
  pose proof (Us _ _ Hs). pose proof (Ul _ _ Hl). pose proof (Uc _ _ Hc).
  pose proof (Ud _ _ Hd).
  match goal with |- -34 <= ?z <= 30 /\ _ => assert (-34 <= z <= 30) as Hz end.
  { unfold weighted_sum. split; nra. }
  split; [exact Hz |].
  pose proof (compute_bbb_probability_returns p _ _ _ _ _ Hs Hl Hc Hf Hd)
    as Hrun.
  cbv zeta in Hrun.
  unfold identity_clamp, integrity_transfer_function in Hrun.
  cbv zeta in Hrun. rewrite !clamp_id in Hrun by lra.
  apply Hrun. apply exp_within_range. lra.
Qed.

Lemma reference_params_sliders : slider_ranges reference_params.
Proof.
  unfold slider_ranges, reference_params.
  cbn [size_nm apoe3_affinity logP zeta_mV dose_relative
    apoe3_expression bbb_tightness inflammation w_size w_aff w_lip
    w_charge w_int w_inf w_dose w_carrier].
  repeat split; lra.
Qed.

(** ** Records on which the aggregator raises *)

(** A square far beyond the range of a double. *)
Ltac square_overflow :=
  unfold overflow_threshold;
  replace 10 with (IZR 10) by reflexivity;
  replace 3 with (IZR 3) by reflexivity;
  rewrite pow_IZR, <- minus_IZR, pow_IZR;
  apply IZR_le; intros Hcmp; vm_compute in Hcmp; discriminate Hcmp.


(** With a [logP] whose square overflows, the lipophilicity score raises
    and so does the aggregator. *)
Lemma reference_params_logP_overflow (lp : R) :
  overflow_threshold <= (lp - 3) ^ 2 ->
  compute_bbb_probability (reference_params_with_logP lp) = None.
Proof.
  intros Hl.
  destruct (compute_bbb_probability_sliders _ reference_params_sliders)
    as (f & Hf & Hf01 & Hrest).
  cbv zeta in Hrest. destruct Hrest as (Hs & _).
  unfold compute_bbb_probability.
  change (size_nm (reference_params_with_logP lp))
    with (size_nm reference_params).
  rewrite Hs. cbn [mbind option_bind].
  change (logP (reference_params_with_logP lp)) with lp.
  rewrite (lipophilicity_transfer_function_None lp Hl). reflexivity.
Qed.

(** * The claims of the specification *)




(** C2, at a failing input. The lipophilicity score raises
    [OverflowError] at [logP = 1e155]: the square of the distance to 3
    leaves the range of a double inside [_gaussian], before the clamp to
    [0,1] applies, and the aggregator called with the slider defaults and
    this [logP] raises with it. *)
Theorem lipophilicity_transfer_function_overflow :
  _gaussian (10 ^ 155) 3 1 = None /\
  lipophilicity_transfer_function (10 ^ 155) = None /\
  compute_bbb_probability (reference_params_with_logP (10 ^ 155)) = None.
Proof.
  assert (overflow_threshold <= (10 ^ 155 - 3) ^ 2) as Hsq
    by square_overflow.
  split; [| split].
  - apply _gaussian_overflow; [lra |].
    replace ((10 ^ 155 - 3) / 1) with (10 ^ 155 - 3) by field. exact Hsq.
  - apply lipophilicity_transfer_function_None. exact Hsq.
  - apply reference_params_logP_overflow. exact Hsq.
Qed.




(** ** Mirror symmetry of the size score *)

Lemma div_lt_floor r : 500 < r -> 50 / r < 0.1.
Proof.
  intros Hr. apply (Rmult_lt_reg_r r); [lra |].
  unfold Rdiv. rewrite Rmult_assoc, Rinv_l by lra. lra.
Qed.

Lemma div_ge_floor r : 0 < r <= 500 -> 0.1 <= 50 / r.
Proof.
  intros Hr. apply (Rmult_le_reg_r r); [lra |].
  unfold Rdiv. rewrite Rmult_assoc, Rinv_l by lra. lra.
Qed.

Lemma log10_500_ge : 2 <= log10 500.
Proof.
  replace 2 with (INR 2) by (simpl; lra). rewrite <- log10_pow10.
  apply log10_le; [simpl; lra | simpl; lra].
Qed.

Lemma log10_floor_offset : log10 0.1 - log10 50 = - log10 500.
Proof.
  replace 500 with (50 / 0.1) by lra.
  rewrite log10_div by lra. lra.
Qed.

(** Two logarithmic units away from the centre the size score is below
    one billionth. *)
Lemma gauss_tail x :
  2 <= Rabs (x - log10 50) -> 0 < gauss x (log10 50) 0.25 <= / 10 ^ 9.
Proof.
  intros Hd. split; [apply gauss_range |].
  unfold gauss.
  assert (64 <= ((x - log10 50) / 0.25) ^ 2) as Hsq.
  { replace (((x - log10 50) / 0.25) ^ 2) with (16 * (x - log10 50)²)
      by (unfold Rsqr; replace 0.25 with (1 / 4) by lra; field).
    assert (2² <= (x - log10 50)²) as H4.
    { apply Rsqr_le_abs_1. rewrite (Rabs_right 2) by lra. exact Hd. }
    unfold Rsqr in *. lra. }
  apply Rle_trans with (exp (Ropp 32)).
  - apply exp_le. lra.
  - rewrite exp_Ropp.
    apply Rinv_le_contravar; [apply pow_lt; lra |].
    apply Rle_trans with (2 ^ 32).
    + replace 10 with (IZR 10) by reflexivity.
      replace 2 with (IZR 2) by reflexivity.
      rewrite !pow_IZR. apply IZR_le. intros Hcmp. vm_compute in Hcmp.
      discriminate Hcmp.
    + replace 32 with (INR 32) by (rewrite INR_IZR_INZ; reflexivity).
      apply exp_INR_bounds.
Qed.

Lemma size_mirror_inside r :
  1 / 500 <= r <= 500 ->
  size_transfer_function (50 * r) = size_transfer_function (50 / r).
Proof.
  intros [Hlo Hhi].
  assert (0 < r) as Hr by lra.
  assert (25000 <= 10 ^ 311) as Hbig.
  { apply Rle_trans with (10 ^ 5); [simpl; lra | apply Rle_pow; [lra | lia]]. }
  assert (50 / r <= 25000) as Hdiv.
  { apply (Rmult_le_reg_r r); [lra |].
    unfold Rdiv. rewrite Rmult_assoc, Rinv_l by lra. nra. }
  rewrite (size_score_above_floor (50 * r)) by lra.
  rewrite (size_score_above_floor (50 / r))
    by (split; [apply div_ge_floor; lra | lra]).
  f_equal. apply gauss_sym.
  rewrite log10_mult, log10_div by lra. lra.
Qed.

(** C4. The size score is symmetric in log-space around 50 nm within
    tolerance: for every [r] between the inverse of the largest double
    and the largest double, the scores of [50 * r] and [50 / r] are both
    computed and differ by at most one billionth. (As real numbers the
    two Gaussians agree while neither argument is raised to the floor,
    that is for [r] between 1/500 and 500; once one is, both scores are
    below the tolerance.) *)
Theorem size_transfer_function_log_symmetry (r : R) :
  / float_max <= r <= float_max ->
  exists y1 y2,
    size_transfer_function (50 * r) = Some y1 /\
    size_transfer_function (50 / r) = Some y2 /\
    Rabs (y1 - y2) <= / 10 ^ 9.
Proof.
  intros [Hlo Hhi].
  pose proof float_max_pos as Hfm. pose proof float_max_pow10 as Hfp.
  assert (0 < / float_max) as Hinv by (apply Rinv_0_lt_compat; lra).
  assert (0 < r) as Hr by lra.
  assert (0 < / 10 ^ 9) as Htol
    by (apply Rinv_0_lt_compat; apply pow_lt; lra).
  assert (50 / r <= 50 * float_max) as Hdiv.
  { unfold Rdiv. apply Rmult_le_compat_l; [lra |].
    rewrite <- (Rinv_inv float_max).
    apply Rinv_le_contravar; [exact Hinv | exact Hlo]. }
  assert (0 < 50 / r) as Hdpos
    by (apply Rmult_lt_0_compat; [lra | apply Rinv_0_lt_compat; exact Hr]).
  pose proof log10_500_ge as H500.
  destruct (Rlt_dec 500 r) as [Hhigh | Hnhigh].
  - (* [50 / r] is raised to the floor *)
    exists (gauss (log10 (50 * r)) (log10 50) 0.25),
           (gauss (log10 0.1) (log10 50) 0.25).
    split; [apply size_score_above_floor; nra |].
    split; [apply size_score_below_floor; left; apply div_lt_floor;
            exact Hhigh |].
    pose proof (log10_le 500 r ltac:(lra) ltac:(lra)) as Hlr.
    assert (0 < gauss (log10 (50 * r)) (log10 50) 0.25 <= / 10 ^ 9) as H1.
    { apply gauss_tail. rewrite log10_mult by lra.
      rewrite Rabs_right by lra. lra. }
    assert (0 < gauss (log10 0.1) (log10 50) 0.25 <= / 10 ^ 9) as H2.
    { apply gauss_tail. rewrite log10_floor_offset.
      rewrite Rabs_left by lra. lra. }
    apply Rabs_le. lra.
  - destruct (Rlt_dec r (1 / 500)) as [Hlow | Hnlow].
    + (* [50 * r] is raised to the floor *)
      exists (gauss (log10 0.1) (log10 50) 0.25),
             (gauss (log10 (50 / r)) (log10 50) 0.25).
      split; [apply size_score_below_floor; lra |].
      split; [apply size_score_above_floor;
              split; [apply div_ge_floor; lra | lra] |].
      assert (log10 r <= - log10 500) as Hlr.
      { replace (- log10 500) with (log10 (1 / 500))
          by (rewrite log10_div, log10_1 by lra; lra).
        apply log10_le; lra. }
      assert (0 < gauss (log10 0.1) (log10 50) 0.25 <= / 10 ^ 9) as H1.
      { apply gauss_tail. rewrite log10_floor_offset.
        rewrite Rabs_left by lra. lra. }
      assert (0 < gauss (log10 (50 / r)) (log10 50) 0.25 <= / 10 ^ 9) as H2.
      { apply gauss_tail. rewrite log10_div by lra.
        rewrite Rabs_right by lra. lra. }
      apply Rabs_le. lra.
    + destruct (size_score_above_floor (50 * r)) as [];
        [split; [lra | nra] |].
      rewrite <- (size_mirror_inside r) by lra.
      eexists _, _.
      split; [apply size_score_above_floor; split; [lra | nra] |].
      split; [apply size_score_above_floor; split; [lra | nra] |].
      replace (_ - _) with 0 by lra. rewrite Rabs_R0. lra.
Qed.

Lemma size_transfer_function_log_symmetry_witness :
  exists y1 y2,
    size_transfer_function (50 * 4) = Some y1 /\
    size_transfer_function (50 / 4) = Some y2 /\
    Rabs (y1 - y2) <= / 10 ^ 9.
Proof.
  apply (size_transfer_function_log_symmetry 4).
  pose proof float_max_pos as Hfm.
  assert (/ float_max <= / 1000)
    by (apply Rinv_le_contravar; lra).
  lra.
Defined.




(** C6. The charge score is 1.0 at 0.0 mV, 0.0 at 40.0 mV and at
    -40.0 mV, and 0.0 on every input whose absolute value exceeds 40. *)
Theorem charge_transfer_function_values :
  charge_transfer_function 0 = Some 1 /\
  charge_transfer_function 40 = Some 0 /\
  charge_transfer_function (-40) = Some 0 /\
  forall x : R, Rabs x > 40 -> charge_transfer_function x = Some 0.
Proof.
  split.
  { rewrite charge_transfer_function_triangle; rewrite Rabs_R0; [| lra].
    f_equal. lra. }
  split; [apply charge_transfer_function_far; rewrite Rabs_right; lra |].
  split.
  { apply charge_transfer_function_far.
    unfold Rabs. destruct (Rcase_abs (-40)); lra. }
  intros x Hx. apply charge_transfer_function_far. lra.
Qed.

Lemma charge_transfer_function_values_witness :
  Rabs 50 > 40 /\ charge_transfer_function 50 = Some 0.
Proof.
  assert (Rabs 50 > 40) as H by (rewrite Rabs_right; lra).
  split; [exact H |].
  destruct charge_transfer_function_values as (_ & _ & _ & Hfar).
  exact (Hfar 50 H).
Defined.

Section DoseOnBinary64.

Import PrimFloat.




End DoseOnBinary64.

(** ** Calls on a store *)










(** C10. The size score is constant at and below the floor 0.1: every
    input [s <= 0.1], not only [s <= 0], scores as 0.1 does, the input
    being raised to 0.1 before the logarithm is taken. *)
Theorem size_transfer_function_floor (s : R) :
  s <= 0.1 -> size_transfer_function s = size_transfer_function 0.1.
Proof.
  intros Hs. rewrite (size_score_below_floor s Hs).
  rewrite (size_score_below_floor 0.1) by lra. reflexivity.
Qed.

Lemma size_transfer_function_floor_witness :
  0.05 <= 0.1 /\ size_transfer_function 0.05 = size_transfer_function 0.1.
Proof.
  assert (0.05 <= 0.1) as H by lra.
  split; [exact H | exact (size_transfer_function_floor 0.05 H)].
Defined.

(** * Further properties of the transfer functions *)

(** ** The Gaussian helper *)

Lemma gauss_one_iff x mu sigma :
  sigma <> 0 -> gauss x mu sigma = 1 <-> x = mu.
Proof.
  intros Hs. split.
  - intros H. destruct (gauss_scale mu sigma Hs) as (c & Hc & Hg).
    rewrite Hg, <- exp_0 in H. apply exp_inv in H.
    assert ((x - mu)² = 0) as Hsq by nra.
    apply Rsqr_0_uniq in Hsq. lra.
  - intros ->. apply gauss_centre.
Qed.

(** X1. [_gaussian] raises on [sigma = 0]; at the centre it returns
    exactly 1 for every other [sigma]; and whatever it returns lies in
    [0,1], as its docstring says. *)
Theorem _gaussian_error_and_range :
  (forall x mu : R, _gaussian x mu 0 = None) /\
  (forall mu sigma : R, sigma <> 0 -> _gaussian mu mu sigma = Some 1) /\
  (forall x mu sigma g : R,
     _gaussian x mu sigma = Some g -> sigma <> 0 /\ 0 <= g <= 1).
Proof.
  split; [exact _gaussian_sigma_zero |]. split.
  - intros mu sigma Hs. rewrite _gaussian_eq.
    + f_equal. apply gauss_centre.
    + exact Hs.
    + replace (mu - mu) with 0 by lra. unfold Rdiv.
      rewrite Rmult_0_l. pose proof overflow_threshold_large.
      simpl. lra.
  - intros x mu sigma g H.
    apply _gaussian_inv in H. destruct H as (Hs & _ & ->).
    split; [exact Hs |].
    pose proof (gauss_range x mu sigma). lra.
Qed.

Lemma _gaussian_error_and_range_witness :
  _gaussian 7 7 0.25 = Some 1.
Proof.
  destruct _gaussian_error_and_range as (_ & Hcentre & _).
  apply (Hcentre 7 0.25). lra.
Defined.

(** X2. Whenever [_gaussian] returns on two points, the one at least as
    close to the centre scores at least as high; in particular points
    equally far on either side score the same. *)
Theorem _gaussian_order (x y mu sigma gx gy : R) :
  _gaussian x mu sigma = Some gx ->
  _gaussian y mu sigma = Some gy ->
  Rabs (y - mu) <= Rabs (x - mu) ->
  gx <= gy.
Proof.
  intros Hx Hy Hd.
  apply _gaussian_inv in Hx. destruct Hx as (Hs & _ & ->).
  apply _gaussian_inv in Hy. destruct Hy as (_ & _ & ->).
  apply gauss_le; assumption.
Qed.

Lemma _gaussian_order_witness :
  exists gx gy,
    _gaussian 1 3 0.25 = Some gx /\ _gaussian 2 3 0.25 = Some gy /\
    gx <= gy.
Proof.
  pose proof overflow_threshold_large as HT.
  assert (_gaussian 1 3 0.25 = Some (gauss 1 3 0.25)) as Hx.
  { apply _gaussian_eq; [lra |].
    replace (((1 - 3) / 0.25) ^ 2) with 64; [lra |].
    replace 0.25 with (1 / 4) by lra. field. }
  assert (_gaussian 2 3 0.25 = Some (gauss 2 3 0.25)) as Hy.
  { apply _gaussian_eq; [lra |].
    replace (((2 - 3) / 0.25) ^ 2) with 16; [lra |].
    replace 0.25 with (1 / 4) by lra. field. }
  eexists _, _. split; [exact Hx |]. split; [exact Hy |].
  apply (_gaussian_order 1 2 3 0.25 _ _ Hx Hy).
  replace (2 - 3) with (- (1)) by lra. replace (1 - 3) with (- (2)) by lra.
  rewrite !Rabs_Ropp, !Rabs_right; lra.
Defined.

(** ** Size *)

(** X4. On every size up to the largest double the size score is
    computed and lies in [0,1], and 50 nm attains the maximum 1. *)
Theorem size_transfer_function_peak (s : R) :
  s <= float_max ->
  size_transfer_function 50 = Some 1 /\
  exists y, size_transfer_function s = Some y /\ 0 <= y <= 1.
Proof.
  intros Hs. pose proof float_max_pow10 as Hfp.
  pose proof float_max_pos as Hfm.
  split.
  - rewrite size_score_above_floor by (split; [lra | nra]).
    f_equal. apply gauss_centre.
  - eexists. split; [apply size_transfer_function_eq; nra |].
    pose proof (gauss_range (log10 (py_max s 0.1)) (log10 50) 0.25). lra.
Qed.

Lemma size_transfer_function_peak_witness :
  size_transfer_function 50 = Some 1 /\
  exists y, size_transfer_function 300 = Some y /\ 0 <= y <= 1.
Proof.
  apply (size_transfer_function_peak 300).
  pose proof float_max_pos. lra.
Defined.

(** ** Lipophilicity *)

(** X6. The lipophilicity score is 1 at [logP = 3], and whenever it is
    computed for two values the one at least as close to 3 scores at
    least as high. *)
Theorem lipophilicity_transfer_function_order (a b ya yb : R) :
  lipophilicity_transfer_function a = Some ya ->
  lipophilicity_transfer_function b = Some yb ->
  Rabs (b - 3) <= Rabs (a - 3) ->
  ya <= yb /\ lipophilicity_transfer_function 3 = Some 1.
Proof.
  intros Ha Hb Hd.
  apply lipophilicity_transfer_function_inv in Ha. destruct Ha as [_ ->].
  apply lipophilicity_transfer_function_inv in Hb. destruct Hb as [_ ->].
  split; [apply gauss_le; [lra | exact Hd] |].
  rewrite lipophilicity_transfer_function_eq.
  - f_equal. apply gauss_centre.
  - pose proof overflow_threshold_large. replace (3 - 3) with 0 by lra.
    simpl. lra.
Qed.

Lemma lipophilicity_transfer_function_order_witness :
  exists ya yb,
    lipophilicity_transfer_function 6 = Some ya /\
    lipophilicity_transfer_function 2.5 = Some yb /\
    ya <= yb /\ lipophilicity_transfer_function 3 = Some 1.
Proof.
  pose proof overflow_threshold_large as HT.
  assert (lipophilicity_transfer_function 6 = Some (gauss 6 3 1)) as Ha
    by (apply lipophilicity_transfer_function_eq; nra).
  assert (lipophilicity_transfer_function 2.5 = Some (gauss 2.5 3 1)) as Hb
    by (apply lipophilicity_transfer_function_eq; nra).
  eexists _, _. split; [exact Ha |]. split; [exact Hb |].
  apply (lipophilicity_transfer_function_order 6 2.5 _ _ Ha Hb).
  replace (2.5 - 3) with (- (0.5)) by lra.
  rewrite Rabs_Ropp, !Rabs_right; lra.
Defined.

(** ** Charge *)

(** X7. The charge score is even: a zeta potential and its opposite score
    the same. *)
Theorem charge_transfer_function_even (z : R) :
  charge_transfer_function (- z) = charge_transfer_function z.
Proof.
  rewrite !charge_transfer_function_eq, Rabs_Ropp. reflexivity.
Qed.

(** X8. The charge score is 0 exactly from 40 mV of absolute charge
    on. *)
Theorem charge_transfer_function_extremes (z : R) :
  charge_transfer_function z = Some 0 <-> 40 <= Rabs z.
Proof.
  pose proof (Rabs_pos z) as Hpos.
  destruct (Rle_dec 40 (Rabs z)) as [Hfar | Hnear].
  - rewrite charge_transfer_function_far by exact Hfar.
    split; [intros _; exact Hfar | reflexivity].
  - rewrite charge_transfer_function_triangle by lra.
    split; [intros H; injection H as H; lra | intros H; lra].
Qed.

(** X9. A larger absolute charge never scores higher. *)
Theorem charge_transfer_function_monotone (a b : R) :
  Rabs a <= Rabs b ->
  exists ya yb,
    charge_transfer_function a = Some ya /\
    charge_transfer_function b = Some yb /\
    yb <= ya.
Proof.
  intros Hab.
  pose proof (Rabs_pos a) as Ha0.
  destruct (Rle_dec 40 (Rabs a)) as [Hfa | Hna].
  - exists 0, 0.
    split; [apply charge_transfer_function_far; lra |].
    split; [apply charge_transfer_function_far; lra | lra].
  - destruct (Rle_dec 40 (Rabs b)) as [Hfb | Hnb].
    + exists (1 - Rabs a / 40), 0.
      split; [apply charge_transfer_function_triangle; lra |].
      split; [apply charge_transfer_function_far; lra | lra].
    + exists (1 - Rabs a / 40), (1 - Rabs b / 40).
      split; [apply charge_transfer_function_triangle; lra |].
      split; [apply charge_transfer_function_triangle; lra | lra].
Qed.

Lemma charge_transfer_function_monotone_witness :
  exists ya yb,
    charge_transfer_function 10 = Some ya /\
    charge_transfer_function (-20) = Some yb /\
    yb <= ya.
Proof.
  apply (charge_transfer_function_monotone 10 (-20)).
  rewrite (Rabs_right 10) by lra.
  unfold Rabs. destruct (Rcase_abs (-20)); lra.
Defined.

(** ** Integrity *)

(** X10. The integrity score is the inverted tightness on [0,1] and
    saturates outside: 1 for a tightness at or below 0, 0 at or above 1. *)
Theorem integrity_transfer_function_piecewise (t : R) :
  (t <= 0 -> integrity_transfer_function t = 1) /\
  (0 <= t <= 1 -> integrity_transfer_function t = 1 - t) /\
  (1 <= t -> integrity_transfer_function t = 0).
Proof.
  unfold integrity_transfer_function. cbv zeta.
  repeat split; intros H; py_cases.
Qed.

Lemma integrity_transfer_function_piecewise_witness :
  integrity_transfer_function (-3) = 1 /\
  integrity_transfer_function 0.25 = 1 - 0.25 /\
  integrity_transfer_function 7 = 0.
Proof.
  split; [| split].
  - apply (integrity_transfer_function_piecewise (-3)). lra.
  - apply (integrity_transfer_function_piecewise 0.25). lra.
  - apply (integrity_transfer_function_piecewise 7). lra.
Defined.

(** X11. A tighter barrier never scores higher. *)
Theorem integrity_transfer_function_monotone (a b : R) :
  a <= b ->
  integrity_transfer_function b <= integrity_transfer_function a.
Proof.
  intros Hab. unfold integrity_transfer_function. cbv zeta. py_cases.
Qed.

Lemma integrity_transfer_function_monotone_witness :
  integrity_transfer_function 0.9 <= integrity_transfer_function 0.2.
Proof.
  apply (integrity_transfer_function_monotone 0.2 0.9). lra.
Defined.

(** ** Dose *)

(** X13. The constant [K = 2.0] is the half-saturation dose: the score is
    one half at dose 2 and at no other dose. *)
Theorem dose_transfer_function_half (d : R) :
  dose_transfer_function d = Some (1 / 2) <-> d = 2.
Proof.
  split.
  - intros H. destruct (Rle_dec d 0) as [Hd | Hd].
    + rewrite dose_transfer_function_nonpos in H by exact Hd.
      injection H. lra.
    + rewrite dose_transfer_function_nonneg in H by lra.
      injection H as H.
      assert (d / (2 + d) * (2 + d) = d) as Hmul by (field; lra).
      rewrite H in Hmul. lra.
  - intros ->. rewrite dose_transfer_function_nonneg by lra.
    f_equal. lra.
Qed.

(** ** Inflammation *)

(** X15. The inflammation score saturates outside [0,1]: it is 0 for an
    input at or below 0 and 1 for an input at or above 1. *)
Theorem inflammation_transfer_function_saturation (i : R) :
  (i <= 0 -> inflammation_transfer_function i = Some 0) /\
  (1 <= i -> inflammation_transfer_function i = Some 1).
Proof.
  split; [apply inflammation_transfer_function_low
         | apply inflammation_transfer_function_high].
Qed.

Lemma inflammation_transfer_function_saturation_witness :
  inflammation_transfer_function (-2) = Some 0 /\
  inflammation_transfer_function 5 = Some 1.
Proof.
  split.
  - apply (inflammation_transfer_function_saturation (-2)). lra.
  - apply (inflammation_transfer_function_saturation 5). lra.
Defined.

(** X16. Between the levels 0 and 1 the power 0.7 never lowers the
    input: the score is at least the inflammation level and at most 1. *)
Theorem inflammation_transfer_function_boost (i : R) :
  0 <= i <= 1 ->
  exists y, inflammation_transfer_function i = Some y /\ i <= y <= 1.
Proof.
  intros [Hi0 Hi1].
  destruct (Req_dec_T i 0) as [-> | Hne0].
  - exists 0. split; [apply inflammation_transfer_function_low; lra | lra].
  - destruct (Req_dec_T i 1) as [-> | Hne1].
    + exists 1. split; [apply inflammation_transfer_function_high; lra | lra].
    + exists (Rpower i 0.7).
      split; [apply inflammation_transfer_function_inside; lra |].
      pose proof (Rpower_boost i ltac:(lra)). lra.
Qed.

Lemma inflammation_transfer_function_boost_witness :
  exists y, inflammation_transfer_function 0.5 = Some y /\ 0.5 <= y <= 1.
Proof. apply (inflammation_transfer_function_boost 0.5). lra. Defined.

(** X17. More inflammation never scores lower. *)
Theorem inflammation_transfer_function_monotone (a b : R) :
  a <= b ->
  exists ya yb,
    inflammation_transfer_function a = Some ya /\
    inflammation_transfer_function b = Some yb /\
    ya <= yb.
Proof.
  intros Hab.
  destruct (inflammation_transfer_function_unit b) as (yb & Hyb & Hb01).
  destruct (Rle_dec a 0) as [Ha | Ha].
  - exists 0, yb.
    split; [apply inflammation_transfer_function_low; exact Ha |].
    split; [exact Hyb | lra].
  - destruct (Rle_dec 1 a) as [Ha1 | Ha1].
    + exists 1, 1.
      split; [apply inflammation_transfer_function_high; lra |].
      split; [apply inflammation_transfer_function_high; lra | lra].
    + exists (Rpower a 0.7), yb.
      split; [apply inflammation_transfer_function_inside; lra |].
      split; [exact Hyb |].
      destruct (Rle_dec 1 b) as [Hb1 | Hb1].
      * rewrite inflammation_transfer_function_high in Hyb by exact Hb1.
        injection Hyb as <-.
        pose proof (Rpower_boost a ltac:(lra)). lra.
      * rewrite inflammation_transfer_function_inside in Hyb by lra.
        injection Hyb as <-.
        apply Rle_Rpower_l; lra.
Qed.

Lemma inflammation_transfer_function_monotone_witness :
  exists ya yb,
    inflammation_transfer_function 0.2 = Some ya /\
    inflammation_transfer_function 0.6 = Some yb /\
    ya <= yb.
Proof. apply (inflammation_transfer_function_monotone 0.2 0.6). lra. Defined.

(** ** The five transfer functions that cannot raise *)

(** X31. Charge, integrity, dose, inflammation and the identity clamp
    return a value of [0,1] on every real input: none of them has an
    operation that can raise. *)
Theorem clamped_transfer_functions_unit_interval (x : R) :
  (exists y, charge_transfer_function x = Some y /\ 0 <= y <= 1) /\
  0 <= integrity_transfer_function x <= 1 /\
  (exists y, dose_transfer_function x = Some y /\ 0 <= y <= 1) /\
  (exists y, inflammation_transfer_function x = Some y /\ 0 <= y <= 1) /\
  0 <= identity_clamp x <= 1.
Proof.
  destruct score_in_unit as (_ & _ & Uc & _ & Ud).
  split.
  { eexists. split; [apply charge_transfer_function_eq | apply clamp_unit]. }
  split.
  { unfold integrity_transfer_function.
    pose proof (clamp_unit x). cbv zeta. lra. }
  split.
  { eexists. split; [apply dose_transfer_function_eq |].
    apply (Ud x). apply dose_transfer_function_eq. }
  split; [apply inflammation_transfer_function_unit |].
  apply clamp_unit.
Qed.

(** ** Logistic *)

(** X18. Whenever [logistic] returns on two logits, the larger logit
    gives a value at least as large. *)
Theorem logistic_increasing (z1 z2 p1 p2 : R) :
  logistic z1 = Some p1 -> logistic z2 = Some p2 ->
  z1 <= z2 -> p1 <= p2.
Proof.
  intros H1 H2 Hz.
  apply logistic_inv in H1. destruct H1 as [_ ->].
  apply logistic_inv in H2. destruct H2 as [_ ->].
  apply logistic_le. exact Hz.
Qed.

Lemma logistic_increasing_witness :
  exists p1 p2,
    logistic (-2) = Some p1 /\ logistic 3 = Some p2 /\ p1 <= p2.
Proof.
  assert (logistic (-2) = Some (1 / (1 + exp (- -2)))) as H1
    by (apply logistic_eq, exp_within_range; lra).
  assert (logistic 3 = Some (1 / (1 + exp (- 3)))) as H2
    by (apply logistic_eq, exp_within_range; lra).
  eexists _, _. split; [exact H1 |]. split; [exact H2 |].
  apply (logistic_increasing (-2) 3 _ _ H1 H2). lra.
Defined.

(** X32. [logistic] returns a value in (0,1] on every logit of at least
    -709 and raises [OverflowError] on every logit of at most -710:
    [math.exp(-z)] is evaluated without a guard. *)
Theorem logistic_range_and_overflow (z : R) :
  (-709 <= z -> exists p, logistic z = Some p /\ 0 < p <= 1) /\
  (z <= -710 -> logistic z = None).
Proof.
  split.
  - intros Hz. eexists.
    split; [apply logistic_eq, exp_within_range; exact Hz |].
    pose proof (logistic_range z). lra.
  - intros Hz. apply logistic_None, exp_beyond_range. exact Hz.
Qed.

Lemma logistic_range_and_overflow_witness :
  (exists p, logistic (-709) = Some p /\ 0 < p <= 1) /\
  logistic (-710) = None.
Proof.
  split.
  - apply (logistic_range_and_overflow (-709)). lra.
  - apply (logistic_range_and_overflow (-710)). lra.
Defined.

(** * Further properties of the aggregator *)

(** Every record within the slider ranges gives a result. *)
Lemma compute_bbb_probability_sliders_returns (p : BBBInputParams) :
  slider_ranges p ->
  exists prob components,
    compute_bbb_probability p = Some (prob, components).
Proof.
  intros Hp.
  destruct (compute_bbb_probability_sliders p Hp) as (f & _ & _ & Hrest).
  cbv zeta in Hrest. destruct Hrest as (_ & _ & _ & _ & _ & Hrun).
  eexists _, _. exact Hrun.
Qed.

(** X21. Whenever the aggregator returns, a non-negative logit gives a
    probability of at least one half and a non-positive logit one of at
    most one half: the offset 2 is what the weighted scores must
    outweigh. *)
Theorem compute_bbb_probability_midpoint
    (p : BBBInputParams) (prob : R) (components : gmap string R) :
  compute_bbb_probability p = Some (prob, components) ->
  exists z,
    components !! "Z" = Some z /\
    (0 <= z -> 1 / 2 <= prob) /\
    (z <= 0 -> prob <= 1 / 2).
Proof.
  intros Hrun.
  destruct (compute_bbb_probability_inv p prob components Hrun)
    as (s & l & c & f & d & _ & _ & _ & _ & _ & Hres).
  cbv zeta in Hres. destruct Hres as (_ & -> & ->).
  eexists. split; [apply score_map_lookup |].
  rewrite <- logistic_zero. split; intros Hz; apply logistic_le; exact Hz.
Qed.

Lemma compute_bbb_probability_midpoint_witness :
  exists prob components z,
    compute_bbb_probability reference_params = Some (prob, components) /\
    components !! "Z" = Some z /\
    (0 <= z -> 1 / 2 <= prob) /\
    (z <= 0 -> prob <= 1 / 2).
Proof.
  destruct (compute_bbb_probability_sliders_returns _ reference_params_sliders)
    as (prob & components & Hrun).
  destruct (compute_bbb_probability_midpoint _ _ _ Hrun) as (z & Hz).
  exists prob, components, z. split; [exact Hrun | exact Hz].
Defined.

(** X22. Raising weights never lowers the probability: for the same
    eight inputs, when the aggregator returns on a record and on another
    none of whose weights is smaller, the probability of the second is at
    least that of the first. *)
Theorem compute_bbb_probability_weight_monotone
    (p q : BBBInputParams) (prob_p prob_q : R)
    (comps_p comps_q : gmap string R) :
  same_inputs p q -> weights_le p q ->
  compute_bbb_probability p = Some (prob_p, comps_p) ->
  compute_bbb_probability q = Some (prob_q, comps_q) ->
  prob_p <= prob_q.
Proof.
  intros ((Esize & Eaff & ElogP & Ezeta) & (Edose & Eexp & Etight & Einf))
         ((Wsize & Waff & Wlip & Wcharge) & (Wint & Winf & Wdose & Wcar))
         Hp Hq.
  destruct (compute_bbb_probability_inv p _ _ Hp)
    as (s & l & c & f & d & Hs & Hl & Hc & Hf & Hd & Hrp).
  destruct (compute_bbb_probability_inv q _ _ Hq)
    as (s' & l' & c' & f' & d' & Hs' & Hl' & Hc' & Hf' & Hd' & Hrq).
  cbv zeta in Hrp, Hrq.
  destruct Hrp as (_ & -> & _). destruct Hrq as (_ & -> & _).
  rewrite <- Esize, Hs in Hs'. injection Hs' as <-.
  rewrite <- ElogP, Hl in Hl'. injection Hl' as <-.
  rewrite <- Ezeta, Hc in Hc'. injection Hc' as <-.
  rewrite <- Einf, Hf in Hf'. injection Hf' as <-.
  rewrite <- Edose, Hd in Hd'. injection Hd' as <-.
  rewrite <- Eaff, <- Etight, <- Eexp.
  destruct score_in_unit as (Us & Ul & Uc & Uf & Ud).
  pose proof (Us _ _ Hs). pose proof (Ul _ _ Hl). pose proof (Uc _ _ Hc).
  pose proof (Uf _ _ Hf). pose proof (Ud _ _ Hd).
  pose proof (clamp_unit (apoe3_affinity p)) as Ha.
  pose proof (clamp_unit (bbb_tightness p)) as Hi.
  pose proof (clamp_unit (apoe3_expression p)) as Hk.
  apply logistic_le.
  unfold weighted_sum, identity_clamp, integrity_transfer_function.
  cbv zeta.
  set (a := py_max 0 (py_min 1 (apoe3_affinity p))) in *.
  set (i := py_max 0 (py_min 1 (bbb_tightness p))) in *.
  set (k := py_max 0 (py_min 1 (apoe3_expression p))) in *.
  nra.
Qed.

Lemma reference_inputs_sliders ws wa wl wc wi wf wd wk :
  -4 <= ws <= 4 -> -4 <= wa <= 4 -> -4 <= wl <= 4 -> -4 <= wc <= 4 ->
  -4 <= wi <= 4 -> -4 <= wf <= 4 -> -4 <= wd <= 4 -> -4 <= wk <= 4 ->
  slider_ranges (reference_inputs_with ws wa wl wc wi wf wd wk).
Proof.
  intros. unfold slider_ranges, reference_inputs_with.
  cbn [size_nm apoe3_affinity logP zeta_mV dose_relative
    apoe3_expression bbb_tightness inflammation w_size w_aff w_lip
    w_charge w_int w_inf w_dose w_carrier].
  repeat split; lra.
Qed.

Lemma compute_bbb_probability_weight_monotone_witness :
  exists prob_p comps_p prob_q comps_q,
    compute_bbb_probability reference_params = Some (prob_p, comps_p) /\
    compute_bbb_probability (reference_inputs_with 3 3 2 2 0 1 2 3)
    = Some (prob_q, comps_q) /\
    prob_p <= prob_q.
Proof.
  destruct (compute_bbb_probability_sliders_returns _ reference_params_sliders)
    as (prob_p & comps_p & Hp).
  destruct (compute_bbb_probability_sliders_returns
              (reference_inputs_with 3 3 2 2 0 1 2 3))
    as (prob_q & comps_q & Hq); [apply reference_inputs_sliders; lra |].
  exists prob_p, comps_p, prob_q, comps_q.
  split; [exact Hp |]. split; [exact Hq |].
  apply (compute_bbb_probability_weight_monotone _ _ _ _ _ _) with (3 := Hp) (4 := Hq);
    unfold same_inputs, weights_le, reference_params, reference_inputs_with;
    cbn [size_nm apoe3_affinity logP zeta_mV dose_relative
      apoe3_expression bbb_tightness inflammation w_size w_aff w_lip
      w_charge w_int w_inf w_dose w_carrier]; repeat split; lra.
Defined.

Lemma term_eq w w' x x' : w = w' -> w = 0 \/ x = x' -> w * x = w' * x'.
Proof. intros <- [-> | <-]; lra. Qed.

(** X23. A factor whose weight is zero has no influence on the
    probability: when the aggregator returns on two records with the
    same weights, whose inputs agree on every factor of non-zero weight,
    the two probabilities and the two logits are the same. *)
Theorem compute_bbb_probability_zero_weight
    (p q : BBBInputParams) (prob_p prob_q : R)
    (comps_p comps_q : gmap string R) :
  same_weights p q ->
  (w_size p = 0 \/ size_nm p = size_nm q) ->
  (w_aff p = 0 \/ apoe3_affinity p = apoe3_affinity q) ->
  (w_lip p = 0 \/ logP p = logP q) ->
  (w_charge p = 0 \/ zeta_mV p = zeta_mV q) ->
  (w_int p = 0 \/ bbb_tightness p = bbb_tightness q) ->
  (w_inf p = 0 \/ inflammation p = inflammation q) ->
  (w_dose p = 0 \/ dose_relative p = dose_relative q) ->
  (w_carrier p = 0 \/ apoe3_expression p = apoe3_expression q) ->
  compute_bbb_probability p = Some (prob_p, comps_p) ->
  compute_bbb_probability q = Some (prob_q, comps_q) ->
  prob_p = prob_q /\ comps_p !! "Z" = comps_q !! "Z".
Proof.
  intros ((Wsize & Waff & Wlip & Wcharge) & (Wint & Winf & Wdose & Wcar))
         Zsize Zaff Zlip Zcharge Zint Zinf Zdose Zcar Hp Hq.
  destruct (compute_bbb_probability_inv p _ _ Hp)
    as (s & l & c & f & d & Hs & Hl & Hc & Hf & Hd & Hrp).
  destruct (compute_bbb_probability_inv q _ _ Hq)
    as (s' & l' & c' & f' & d' & Hs' & Hl' & Hc' & Hf' & Hd' & Hrq).
  cbv zeta in Hrp, Hrq.
  destruct Hrp as (_ & -> & ->). destruct Hrq as (_ & -> & ->).
  match goal with
  | |- 1 / (1 + exp (- ?zp)) = 1 / (1 + exp (- ?zq)) /\ _ =>
      assert (zq = zp) as Hz
  end.
  { unfold weighted_sum.
    rewrite (term_eq (w_size p) (w_size q) s s' Wsize)
      by (destruct Zsize as [H0 | E]; [left; exact H0 | right; congruence]).
    rewrite (term_eq (w_aff p) (w_aff q) _
               (identity_clamp (apoe3_affinity q)) Waff)
      by (destruct Zaff as [H0 | E]; [left; exact H0 | right; congruence]).
    rewrite (term_eq (w_lip p) (w_lip q) l l' Wlip)
      by (destruct Zlip as [H0 | E]; [left; exact H0 | right; congruence]).
    rewrite (term_eq (w_charge p) (w_charge q) c c' Wcharge)
      by (destruct Zcharge as [H0 | E]; [left; exact H0 | right; congruence]).
    rewrite (term_eq (w_int p) (w_int q) _
               (integrity_transfer_function (bbb_tightness q)) Wint)
      by (destruct Zint as [H0 | E]; [left; exact H0 | right; congruence]).
    rewrite (term_eq (w_inf p) (w_inf q) f f' Winf)
      by (destruct Zinf as [H0 | E]; [left; exact H0 | right; congruence]).
    rewrite (term_eq (w_dose p) (w_dose q) d d' Wdose)
      by (destruct Zdose as [H0 | E]; [left; exact H0 | right; congruence]).
    rewrite (term_eq (w_carrier p) (w_carrier q) _
               (identity_clamp (apoe3_expression q)) Wcar)
      by (destruct Zcar as [H0 | E]; [left; exact H0 | right; congruence]).
    reflexivity. }
  rewrite Hz. split; [reflexivity |].
  transitivity (Some (weighted_sum p s (identity_clamp (apoe3_affinity p)) l c
                        (integrity_transfer_function (bbb_tightness p)) f d
                        (identity_clamp (apoe3_expression p)))).
  - apply score_map_lookup.
  - symmetry. apply score_map_lookup.
Qed.

Lemma compute_bbb_probability_zero_weight_witness :
  exists prob_p comps_p prob_q comps_q,
    compute_bbb_probability
      (mkBBBInputParams 80 0.6 2.5 (-5) 3 0.7 0.9 0.2 0 2.5 1 1 (-2) 0.5 1.5 2)
    = Some (prob_p, comps_p) /\
    compute_bbb_probability
      (mkBBBInputParams 300 0.6 2.5 (-5) 3 0.7 0.9 0.2 0 2.5 1 1 (-2) 0.5 1.5 2)
    = Some (prob_q, comps_q) /\
    prob_p = prob_q /\ comps_p !! "Z" = comps_q !! "Z".
Proof.
  destruct (compute_bbb_probability_sliders_returns
    (mkBBBInputParams 80 0.6 2.5 (-5) 3 0.7 0.9 0.2 0 2.5 1 1 (-2) 0.5 1.5 2))
    as (prob_p & comps_p & Hp).
  { unfold slider_ranges.
    cbn [size_nm apoe3_affinity logP zeta_mV dose_relative
      apoe3_expression bbb_tightness inflammation w_size w_aff w_lip
      w_charge w_int w_inf w_dose w_carrier]. repeat split; lra. }
  destruct (compute_bbb_probability_sliders_returns
    (mkBBBInputParams 300 0.6 2.5 (-5) 3 0.7 0.9 0.2 0 2.5 1 1 (-2) 0.5 1.5 2))
    as (prob_q & comps_q & Hq).
  { unfold slider_ranges.
    cbn [size_nm apoe3_affinity logP zeta_mV dose_relative
      apoe3_expression bbb_tightness inflammation w_size w_aff w_lip
      w_charge w_int w_inf w_dose w_carrier]. repeat split; lra. }
  exists prob_p, comps_p, prob_q, comps_q.
  split; [exact Hp |]. split; [exact Hq |].
  apply (compute_bbb_probability_zero_weight _ _ _ _ _ _) with (10 := Hp) (11 := Hq);
    unfold same_weights;
    cbn [size_nm apoe3_affinity logP zeta_mV dose_relative
      apoe3_expression bbb_tightness inflammation w_size w_aff w_lip
      w_charge w_int w_inf w_dose w_carrier];
    first [ left; reflexivity | right; reflexivity | repeat split; reflexivity ].
Defined.

(** X33. With every weight at zero only the offset is left: whenever
    the aggregator returns, whatever the eight inputs, the stored logit
    is -2 and the probability is [1 / (1 + exp(2))], below one half. The
    scores are computed all the same, so a zero weight does not keep a
    transfer function from raising. *)
Theorem compute_bbb_probability_offset
    (p : BBBInputParams) (prob : R) (components : gmap string R) :
  compute_bbb_probability (zero_weights p) = Some (prob, components) ->
  components !! "Z" = Some (-2) /\
  prob = 1 / (1 + exp 2) /\
  prob < 1 / 2.
Proof.
  intros Hrun.
  destruct (compute_bbb_probability_inv _ prob components Hrun)
    as (s & l & c & f & d & _ & _ & _ & _ & _ & Hres).
  cbv zeta in Hres. destruct Hres as (_ & -> & ->).
  match goal with |- context [weighted_sum ?q ?a1 ?a2 ?a3 ?a4 ?a5 ?a6 ?a7 ?a8] =>
    assert (weighted_sum q a1 a2 a3 a4 a5 a6 a7 a8 = -2) as ->
      by (unfold weighted_sum, zero_weights;
          cbn [w_size w_aff w_lip w_charge w_int w_inf w_dose w_carrier];
          lra)
  end.
  split; [apply score_map_lookup |].
  replace (- -2) with 2 by lra.
  split; [reflexivity |].
  pose proof exp_1_gt_2 as He.
  assert (exp 1 <= exp 2) by (apply exp_le; lra).
  assert (0 < / (1 + exp 2)) by (apply Rinv_0_lt_compat; lra).
  apply (Rmult_lt_reg_r (1 + exp 2)); [lra |].
  unfold Rdiv. rewrite Rmult_assoc, Rinv_l by lra. lra.
Qed.

Lemma compute_bbb_probability_offset_witness :
  exists prob components,
    compute_bbb_probability (zero_weights reference_params)
    = Some (prob, components) /\
    components !! "Z" = Some (-2) /\
    prob = 1 / (1 + exp 2) /\
    prob < 1 / 2.
Proof.
  destruct (compute_bbb_probability_sliders_returns
              (zero_weights reference_params))
    as (prob & components & Hrun).
  { unfold slider_ranges, zero_weights, reference_params.
    cbn [size_nm apoe3_affinity logP zeta_mV dose_relative
      apoe3_expression bbb_tightness inflammation w_size w_aff w_lip
      w_charge w_int w_inf w_dose w_carrier].
    repeat split; lra. }
  exists prob, components. split; [exact Hrun |].
  exact (compute_bbb_probability_offset _ _ _ Hrun).
Defined.

(** ** Inputs outside the intended ranges *)

Lemma clamp_idem v :
  py_max 0 (py_min 1 (py_max 0 (py_min 1 v))) = py_max 0 (py_min 1 v).
Proof. apply clamp_id, clamp_unit. Qed.

Lemma size_transfer_function_saturate s :
  size_transfer_function (py_max s 0.1) = size_transfer_function s.
Proof.
  unfold size_transfer_function. cbv zeta.
  assert (py_max (py_max s 0.1) 0.1 = py_max s 0.1) as -> by py_cases.
  reflexivity.
Qed.

Lemma charge_transfer_function_saturate z :
  charge_transfer_function (py_max (-40) (py_min 40 z))
  = charge_transfer_function z.
Proof.
  rewrite !charge_transfer_function_eq.
  assert (py_min (py_max (Rabs (py_max (-40) (py_min 40 z))) 0) 40
          = py_min (py_max (Rabs z) 0) 40) as ->; [| reflexivity].
  unfold Rabs.
  destruct (Rcase_abs z), (Rcase_abs (py_max (-40) (py_min 40 z)));
    revert r0; py_cases.
Qed.

Lemma dose_transfer_function_saturate d :
  dose_transfer_function (py_max 0 d) = dose_transfer_function d.
Proof.
  rewrite !dose_transfer_function_eq.
  assert (py_max 0 (py_max 0 d) = py_max 0 d) as -> by py_cases.
  reflexivity.
Qed.

(** X24. Inputs beyond their intended range are indistinguishable from
    the nearest value of the range: replacing the size by at least 0.1,
    the charge by its cut to [-40,40], the dose by at least 0 and the four
    unit-interval inputs by their clamp changes neither the probability
    nor the dictionary. *)
Theorem compute_bbb_probability_saturate (p : BBBInputParams) :
  compute_bbb_probability (saturate p) = compute_bbb_probability p.
Proof.
  unfold compute_bbb_probability, saturate.
  cbn [size_nm apoe3_affinity logP zeta_mV dose_relative
    apoe3_expression bbb_tightness inflammation w_size w_aff w_lip
    w_charge w_int w_inf w_dose w_carrier].
  unfold integrity_transfer_function, inflammation_transfer_function.
  cbv zeta.
  rewrite size_transfer_function_saturate, charge_transfer_function_saturate,
    dose_transfer_function_saturate, !clamp_idem.
  reflexivity.
Qed.

(** ** The returned dictionary *)

(** X25. Whenever the aggregator returns, the dictionary has exactly
    nine keys, the eight score names and "Z": a subscript with any other
    key is a [KeyError]. *)
Theorem compute_bbb_probability_keys
    (p : BBBInputParams) (prob : R) (components : gmap string R) :
  compute_bbb_probability p = Some (prob, components) ->
  dom components = score_keys /\
  forall key : string, key ∉ score_keys -> components !! key = None.
Proof.
  intros Hrun.
  destruct (compute_bbb_probability_inv p prob components Hrun)
    as (s & l & c & f & d & _ & _ & _ & _ & _ & Hres).
  cbv zeta in Hres. destruct Hres as (_ & _ & ->).
  assert (forall a b c0 d0 e f0 g h z,
            dom (score_map a b c0 d0 e f0 g h z) = score_keys) as Hdom
    by (intros; apply score_map_dom).
  split; [apply Hdom |].
  intros key Hkey. apply not_elem_of_dom. rewrite Hdom. exact Hkey.
Qed.

Lemma compute_bbb_probability_keys_witness :
  exists prob components,
    compute_bbb_probability reference_params = Some (prob, components) /\
    dom components = score_keys /\
    components !! "probability" = None.
Proof.
  destruct (compute_bbb_probability_sliders_returns _ reference_params_sliders)
    as (prob & components & Hrun).
  destruct (compute_bbb_probability_keys _ _ _ Hrun) as (Hdom & Hmiss).
  exists prob, components. split; [exact Hrun |]. split; [exact Hdom |].
  apply Hmiss. unfold score_keys.
  rewrite !not_elem_of_union, !not_elem_of_singleton.
  repeat split; discriminate.
Defined.

(** * The caller *)

(** ** The factor table *)

Lemma factor_table_score_map s a l c i f d k z :
  factor_table (score_map s a l c i f d k z)
  = Some (factor_labels, [s; a; l; c; i; f; d; k]).
Proof.
  destruct (score_map_lookup s a l c i f d k z)
    as (Ls & La & Ll & Lc & Li & Lf & Ld & Lk & _).
  unfold factor_table, factor_scores.
  rewrite Ls, La, Ll, Lc, Li, Lf, Ld, Lk. reflexivity.
Qed.

(** X26. On a dictionary returned by the aggregator the table is always
    built: none of the eight subscripts is a [KeyError], the score column
    has one row per label, in the order of the labels, each row is the
    value of the matching transfer function and lies in [0,1]; the logit
    "Z" is not shown. *)
Theorem factor_table_of_result
    (p : BBBInputParams) (prob : R) (components : gmap string R) :
  compute_bbb_probability p = Some (prob, components) ->
  exists s l c f d scores,
    factor_table components = Some (factor_labels, scores) /\
    size_transfer_function (size_nm p) = Some s /\
    lipophilicity_transfer_function (logP p) = Some l /\
    charge_transfer_function (zeta_mV p) = Some c /\
    inflammation_transfer_function (inflammation p) = Some f /\
    dose_transfer_function (dose_relative p) = Some d /\
    scores = [s; identity_clamp (apoe3_affinity p); l; c;
              integrity_transfer_function (bbb_tightness p); f; d;
              identity_clamp (apoe3_expression p)] /\
    length scores = length factor_labels /\
    Forall (fun y => 0 <= y <= 1) scores.
Proof.
  intros Hrun.
  destruct (compute_bbb_probability_inv p prob components Hrun)
    as (s & l & c & f & d & Hs & Hl & Hc & Hf & Hd & Hres).
  cbv zeta in Hres. destruct Hres as (_ & _ & ->).
  destruct score_in_unit as (Us & Ul & Uc & Uf & Ud).
  set (a := identity_clamp (apoe3_affinity p)) in *.
  set (i := integrity_transfer_function (bbb_tightness p)) in *.
  set (k := identity_clamp (apoe3_expression p)) in *.
  exists s, l, c, f, d, [s; a; l; c; i; f; d; k].
  split; [apply factor_table_score_map |].
  do 5 (split; [assumption |]).
  split; [reflexivity |]. split; [reflexivity |].
  assert (0 <= a <= 1) by apply clamp_unit.
  assert (0 <= k <= 1) by apply clamp_unit.
  assert (0 <= i <= 1).
  { subst i. unfold integrity_transfer_function. cbv zeta.
    pose proof (clamp_unit (bbb_tightness p)). lra. }
  repeat (apply Forall_cons; split; [eauto |]).
  apply Forall_nil_2.
Qed.

Lemma factor_table_of_result_witness :
  exists prob components scores,
    compute_bbb_probability reference_params = Some (prob, components) /\
    factor_table components = Some (factor_labels, scores) /\
    length scores = length factor_labels /\
    Forall (fun y => 0 <= y <= 1) scores.
Proof.
  destruct (compute_bbb_probability_sliders_returns _ reference_params_sliders)
    as (prob & components & Hrun).
  destruct (factor_table_of_result _ _ _ Hrun)
    as (s & l & c & f & d & scores & Htab & _ & _ & _ & _ & _ & _ & Hlen & Hall).
  exists prob, components, scores.
  split; [exact Hrun |]. split; [exact Htab |]. split; assumption.
Defined.

(** X27. On an arbitrary dictionary the score column is built exactly
    when the eight score keys are all present: one missing key is a
    [KeyError], and further keys are ignored. *)
Theorem factor_scores_defined_iff (components : gmap string R) :
  is_Some (factor_scores components) <->
  Forall (fun key : string => is_Some (components !! key))
    ["size_score"; "affinity_score"; "lipophilicity_score"; "charge_score";
     "integrity_score"; "inflammation_score"; "dose_score"; "carrier_score"].
Proof.
  unfold factor_scores. split.
  - intros [scores H].
    repeat match type of H with
           | (?o ≫= _) = _ =>
               destruct o eqn:?; simpl in H; [| discriminate]
           end.
    repeat (apply Forall_cons; split; [eexists; eassumption |]).
    apply Forall_nil_2.
  - intros H.
    repeat match goal with
           | H : Forall _ (_ :: _) |- _ =>
               apply Forall_cons in H; destruct H as [[? ?] H]
           end.
    repeat match goal with
           | E : _ !! _ = Some _ |- _ => rewrite E; clear E
           end.
    simpl. eexists. reflexivity.
Qed.

(** ** The size sweep *)

Lemma mapM_fmap_pointwise {A B C : Type}
    (f : B -> option C) (g : A -> B) (h : A -> C) (l : list A) :
  Forall (fun x => f (g x) = Some (h x)) l ->
  mapM f (g <$> l) = Some (h <$> l).
Proof.
  induction 1 as [| x l Hx _ IH]; [reflexivity |].
  cbn. rewrite Hx. cbn. fold (mapM f (g <$> l)). rewrite IH. reflexivity.
Qed.

Lemma INR_const (n : nat) : INR n = IZR (Z.of_nat n).
Proof. apply INR_IZR_INZ. Qed.

(** The [i]-th sample of the sweep. *)
Lemma size_range_samples :
  size_range = (fun i : nat => 1 + INR i * (499 / 199)) <$> seq 0 200.
Proof.
  unfold size_range, np_linspace. apply list_fmap_ext.
  intros _ i _. f_equal. f_equal.
  replace (INR (200 - 1)) with 199
    by (rewrite INR_const; reflexivity).
  lra.
Qed.

Lemma sample_bounds (i : nat) :
  (i < 200)%nat -> 1 <= 1 + INR i * (499 / 199) <= 500.
Proof.
  intros Hi. pose proof (pos_INR i) as H0.
  assert (INR i <= 199) as H199.
  { replace 199 with (INR 199) by (rewrite INR_const; reflexivity).
    apply le_INR. lia. }
  lra.
Qed.

(** No sample falls on 50 nm: 49 * 199 is not a multiple of 499. *)
Lemma sample_off_peak (i : nat) : 1 + INR i * (499 / 199) <> 50.
Proof.
  intros H. assert (INR i * 499 = 9751) as Hi by lra.
  destruct (le_lt_dec i 19) as [Hle | Hgt].
  - assert (INR i <= 19).
    { replace 19 with (INR 19) by (rewrite INR_const; reflexivity).
      apply le_INR. exact Hle. }
    lra.
  - assert (20 <= INR i).
    { replace 20 with (INR 20) by (rewrite INR_const; reflexivity).
      apply le_INR. lia. }
    lra.
Qed.

Lemma size_scores_eq :
  size_scores
  = Some ((fun i : nat =>
             gauss (log10 (1 + INR i * (499 / 199))) (log10 50) 0.25)
          <$> seq 0 200).
Proof.
  unfold size_scores. rewrite size_range_samples.
  apply mapM_fmap_pointwise. apply Forall_seq. intros i Hi.
  apply size_score_above_floor.
  pose proof (sample_bounds i ltac:(lia)).
  assert (500 <= 10 ^ 311)
    by (apply Rle_trans with (10 ^ 3);
        [simpl; lra | apply Rle_pow; [lra | lia]]).
  lra.
Qed.

(** X28. The sweep of the sensitivity plot: the 200 samples lie between
    1 and 500 nm, the size score of every sample is computed without an
    error, and every plotted score is strictly between 0 and 1: no sample
    falls on the peak at 50 nm, so the curve never reaches 1. *)
Theorem size_scores_sweep :
  length size_range = 200%nat /\
  Forall (fun x => 1 <= x <= 500) size_range /\
  exists scores,
    size_scores = Some scores /\
    length scores = 200%nat /\
    Forall (fun y => 0 < y < 1) scores.
Proof.
  split; [rewrite size_range_samples, length_fmap; apply length_seq |].
  split.
  { rewrite size_range_samples. apply Forall_fmap, Forall_seq.
    intros i Hi. apply sample_bounds. lia. }
  eexists. split; [apply size_scores_eq |].
  split; [rewrite length_fmap; apply length_seq |].
  apply Forall_fmap, Forall_seq. intros i Hi. cbn.
  pose proof (gauss_range (log10 (1 + INR i * (499 / 199))) (log10 50) 0.25)
    as [Hpos Hle].
  split; [exact Hpos |].
  destruct Hle as [Hlt | Heq]; [exact Hlt | exfalso].
  apply gauss_one_iff in Heq; [| lra].
  apply log10_inj in Heq;
    [| pose proof (sample_bounds i ltac:(lia)); lra | lra].
  exact (sample_off_peak i Heq).
Qed.

(** ** The whole script *)

(** X29. On every record within the slider ranges the computations of
    the script never raise: the aggregator, the table and the sweep all
    return, the metric shown is a percentage strictly between 0 and 100,
    the table has the eight labelled rows and the plot 200 points. *)
Theorem app_run_total (p : BBBInputParams) :
  slider_ranges p ->
  exists metric labels column scores,
    app_run p = Some (metric, (labels, column), scores) /\
    0 < metric < 100 /\
    labels = factor_labels /\
    length column = 8%nat /\
    length scores = 200%nat.
Proof.
  intros Hp.
  destruct (compute_bbb_probability_sliders p Hp) as (f & _ & _ & Hrest).
  cbv zeta in Hrest. destruct Hrest as (_ & _ & _ & _ & _ & Hrun).
  eexists _, _, _, _. split.
  { unfold app_run. rewrite Hrun. cbn [mbind option_bind].
    rewrite factor_table_score_map. cbn [mbind option_bind].
    rewrite size_scores_eq. reflexivity. }
  split.
  { match goal with |- 0 < 1 / (1 + exp (- ?z)) * 100 < 100 =>
      pose proof (logistic_range z) end.
    lra. }
  split; [reflexivity |]. split; [reflexivity |].
  rewrite length_fmap. apply length_seq.
Qed.

Lemma app_run_total_witness :
  exists metric labels column scores,
    app_run reference_params = Some (metric, (labels, column), scores) /\
    0 < metric < 100 /\
    labels = factor_labels /\
    length column = 8%nat /\
    length scores = 200%nat.
Proof.
  apply (app_run_total reference_params). exact reference_params_sliders.
Defined.

(** ** Slider values *)

(** X30. On a record within the slider ranges no clamp fires and the
    logit stays between -34 and 30: the dictionary holds the affinity and
    the expression themselves, the inverted tightness, the triangle of the
    charge, the saturation ratio of the dose and the Gaussian of the
    logarithm of the size. *)
Theorem compute_bbb_probability_on_sliders (p : BBBInputParams) :
  slider_ranges p ->
  exists prob components z,
    compute_bbb_probability p = Some (prob, components) /\
    components !! "Z" = Some z /\
    -34 <= z <= 30 /\
    components !! "size_score"
      = Some (gauss (log10 (size_nm p)) (log10 50) 0.25) /\
    components !! "affinity_score" = Some (apoe3_affinity p) /\
    components !! "charge_score" = Some (1 - Rabs (zeta_mV p) / 40) /\
    components !! "integrity_score" = Some (1 - bbb_tightness p) /\
    components !! "dose_score"
      = Some (dose_relative p / (2 + dose_relative p)) /\
    components !! "carrier_score" = Some (apoe3_expression p).
Proof.
  intros Hp.
  destruct (compute_bbb_probability_sliders p Hp) as (f & Hf & Hf01 & Hrest).
  cbv zeta in Hrest. destruct Hrest as (_ & _ & _ & _ & Hz & Hrun).
  eexists _, _, _. split; [exact Hrun |].
  split; [apply score_map_lookup |].
  split; [exact Hz |].
  repeat split; apply score_map_lookup.
Qed.

Lemma compute_bbb_probability_on_sliders_witness :
  exists prob components z,
    compute_bbb_probability reference_params = Some (prob, components) /\
    components !! "Z" = Some z /\
    -34 <= z <= 30 /\
    components !! "size_score"
      = Some (gauss (log10 (size_nm reference_params)) (log10 50) 0.25) /\
    components !! "affinity_score"
      = Some (apoe3_affinity reference_params) /\
    components !! "charge_score"
      = Some (1 - Rabs (zeta_mV reference_params) / 40) /\
    components !! "integrity_score"
      = Some (1 - bbb_tightness reference_params) /\
    components !! "dose_score"
      = Some (dose_relative reference_params
              / (2 + dose_relative reference_params)) /\
    components !! "carrier_score" = Some (apoe3_expression reference_params).
Proof.
  apply (compute_bbb_probability_on_sliders reference_params).
  unfold slider_ranges, reference_params.
  cbn [size_nm apoe3_affinity logP zeta_mV dose_relative
    apoe3_expression bbb_tightness inflammation w_size w_aff w_lip
    w_charge w_int w_inf w_dose w_carrier].
  repeat split; lra.
Defined.
